(** * Detouring::ClassProxy — a shallow embedding of [classproxy.hpp]

    The development follows the header top to bottom: the process memory
    the header reads and patches, the pointer-to-member references it
    decodes ([GetAddress], [GetVirtualAddress]), the static registry of
    [ClassProxy<Target, Substitute>] and its operations ([Initialize],
    [IsHooked], [Hook], [UnHook], [Call]), and then the properties of the
    registry.

    Conventions.  Addresses, sizes and indices are [N]; [0] is [nullptr].
    Memory is byte addressed; multi-byte values are little endian.  The two
    preprocessor switches of the header ([_MSC_VER], [_WIN64]) and
    [sizeof( void * )] are fixed by a [Build].  Everything the header only
    declares ([Member]'s constructors, [ProtectMemory],
    [IsExecutableAddress], [Detouring::Hook] of hook.hpp) is gathered in a
    [Platform] the whole development is parametrised by. *)

From Stdlib Require Import NArith ZArith Lia Bool.
From stdpp Require Import gmap list.

Local Open Scope N_scope.

(** ** Build configuration *)

Inductive Build : Type :=
  | MSVC_Win64   (* _MSC_VER and _WIN64 defined *)
  | MSVC_Win32   (* _MSC_VER defined, _WIN64 not *)
  | Other64      (* no _MSC_VER, 8-byte pointers *)
  | Other32.     (* no _MSC_VER, 4-byte pointers *)

Definition msc_ver (b : Build) : bool :=
  match b with MSVC_Win64 | MSVC_Win32 => true | _ => false end.

Definition win64 (b : Build) : bool :=
  match b with MSVC_Win64 => true | _ => false end.

(** [sizeof( void * )], as a byte count. *)
Definition ptr_bytes (b : Build) : nat :=
  match b with MSVC_Win64 | Other64 => 8%nat | _ => 4%nat end.

Definition sizeof_ptr (b : Build) : N := N.of_nat (ptr_bytes b).

(** ** Process memory *)

Definition Memory : Type := N -> N.

Definition load8 (m : Memory) (a : N) : N := m a mod 256.

Definition store8 (m : Memory) (a v : N) : Memory :=
  fun x => if x =? a then v mod 256 else m x.

Fixpoint load_le (n : nat) (m : Memory) (a : N) : N :=
  match n with
  | O => 0
  | S k => load8 m a + 256 * load_le k m (a + 1)
  end.

Fixpoint store_le (n : nat) (m : Memory) (a v : N) : Memory :=
  match n with
  | O => m
  | S k => store_le k (store8 m a v) (a + 1) (v / 256)
  end.

(** [*reinterpret_cast<void **>( a )] and its store. *)
Definition load_ptr (b : Build) (m : Memory) (a : N) : N :=
  load_le (ptr_bytes b) m a.

Definition store_ptr (b : Build) (m : Memory) (a v : N) : Memory :=
  store_le (ptr_bytes b) m a v.

(** [*reinterpret_cast<uint32_t *>( a )] and [*reinterpret_cast<int32_t *>( a )]. *)
Definition load_u32 (m : Memory) (a : N) : N := load_le 4 m a.

Definition load_i32 (m : Memory) (a : N) : Z :=
  let u := Z.of_N (load_u32 m a) in
  if (u <? 2 ^ 31)%Z then u else (u - 2 ^ 32)%Z.

(** Pointer values live in [sizeof( void * )] bytes: a computed address is
    reduced to that width. *)
Definition wrap_ptr (b : Build) (z : Z) : N :=
  Z.to_N (z mod 2 ^ (8 * Z.of_nat (ptr_bytes b))).

(** [vtable[index]] for a [void **vtable]. *)
Definition slot_addr (b : Build) (vtable index : N) : N :=
  vtable + index * sizeof_ptr b.

Definition vtable_at (b : Build) (m : Memory) (vtable index : N) : N :=
  load_ptr b m (slot_addr b vtable index).

(** A value that fits a pointer. *)
Definition pointer_sized (b : Build) (v : N) : Prop :=
  v < 256 ^ sizeof_ptr b.

(** ** Pointer-to-member references

    A [RetType ( Class::* )( Args... )] value is an object of one pointer
    (MSVC, single inheritance) or of two words, pointer then adjustment
    (other compilers).  [ref_ptr] is the first word, the one
    [*reinterpret_cast<void **>( pmethod )] reads, and the one that is zero
    exactly for a null reference; [ref_adj] is the second word.

    [GetAddress] takes the address of its by-value parameter
    ([pmethod = &method]).  Outside MSVC it returns that address itself, so
    the place where the copy is spilled becomes part of what the function
    computes; the source does not fix it, and the embedding records it with
    the reference as [ref_home]. *)

Record MethodRef : Type := {
  ref_ptr : N;
  ref_adj : N;
  ref_home : N
}.

(** The memory as [GetAddress] sees it: the process memory with the
    parameter copy laid out at [ref_home]. *)
Definition spill (b : Build) (m : Memory) (r : MethodRef) : Memory :=
  store_ptr b (store_ptr b m (ref_home r) (ref_ptr r))
            (ref_home r + sizeof_ptr b) (ref_adj r).

(** ** struct Member *)

Record Member : Type := {
  address : N;
  index : N
}.

(** ** GetAddress (lines 91-112) *)

Definition GetAddress (b : Build) (m : Memory) (method : MethodRef) : N :=
  let '(address, view) :=
    if msc_ver b then (ref_ptr method, m)
    else (ref_home method, spill b m method) in
  let method_code := address in
  if load8 view method_code =? 233 (* 0xE9 *)
  then wrap_ptr b (Z.of_N method_code + 5 + load_i32 view (method_code + 1))
  else address.

(** [for( index = 0; index < size; ++index ) if( vtable[index] == wanted )]:
    the first slot holding [wanted], scanning [n] slots from [index]. *)
Fixpoint scan_slots (b : Build) (m : Memory) (vtable wanted : N)
         (n : nat) (index : N) : option N :=
  match n with
  | O => None
  | S k =>
      if vtable_at b m vtable index =? wanted then Some index
      else scan_slots b m vtable wanted k (index + 1)
  end.

(** ** What the header only declares

    - [Member( )] and [Member( idx, addr )] are declared at lines 75-76 and
      defined in another translation unit;
    - [ProtectMemory] and [IsExecutableAddress] are declared at lines
      186-188;
    - [Detouring::Hook] comes from hook.hpp;
    - [max_size( )] of [std::vector<void *>] is the standard library's.

    [Detouring::Hook] patches the code of the function it detours, so its
    operations take and return the process memory. *)

Class Platform : Type := {
  build : Build;
  (** Modelled from the spec: the index a default-constructed [Member]
      carries, the sentinel that means not-found. *)
  npos : N;
  vector_max_size : N;
  IsExecutableAddress : N -> bool;
  Detour : Type;
  Detour_new : Detour;
  Detour_Create : Detour -> Memory -> N -> N -> bool * Detour * Memory;
  Detour_Enable : Detour -> Memory -> bool * Detour * Memory;
  Detour_GetTrampoline : Detour -> N;
  Detour_destroy : Detour -> Memory -> Memory
}.

(** A call of [ProtectMemory( pMemory, uiLen, protect )]; the header
    discards its result. *)
Record ProtectCall : Type := {
  pMemory : N;
  uiLen : N;
  protect : bool
}.

(** What a [Call] ends in: the value-initialised [RetType( )], a call
    through a plain function pointer, or a call through the [Member]
    reinterpreted as a pointer to member (line 639). *)
Inductive CallResult : Type :=
  | ReturnDefault
  | InvokeFunction (callee : N) (instance : N) (args : list N)
  | InvokeMethod (typedfunc : Member) (instance : N) (args : list N).

Definition callee_of (r : CallResult) : option N :=
  match r with
  | ReturnDefault => None
  | InvokeFunction a _ _ => Some a
  | InvokeMethod t _ _ => Some (address t)
  end.

(** The two kinds of [original] the overloads of [IsHooked], [Hook],
    [UnHook] and [Call] accept: [RetType ( * )( Target *, Args... )] and
    [RetType ( Target::* )( Args... )] (const or not, the const overloads
    cast and forward). *)
Inductive OriginalRef : Type :=
  | Function (original : N)
  | Method (original : MethodRef).

Section Registry.

Context {P : Platform}.

Local Abbreviation bld := (@build P).

(** Modelled from the spec: [Member( )], the not-found descriptor, a null
    address with the sentinel index. *)
Definition Member_default : Member :=
  {| address := 0; index := npos |}.

(** Modelled from the spec: [Member( idx, addr )], the descriptor of slot
    [idx] holding [addr]. *)
Definition Member_at (idx addr : N) : Member :=
  {| address := addr; index := idx |}.

Definition set_address (t : Member) (a : N) : Member :=
  {| address := a; index := index t |}.

Definition set_index (t : Member) (i : N) : Member :=
  {| address := address t; index := i |}.

(** ** GetVirtualTable (lines 85-89) *)

Definition GetVirtualTable (m : Memory) (instance : N) : N :=
  load_ptr bld m instance.

(** ** GetVirtualAddress (lines 115-184) *)

Definition GetVirtualAddress (m : Memory) (vtable size : N)
           (method : MethodRef) : Member :=
  if (vtable =? 0) || (size =? 0) || (ref_ptr method =? 0)
  then Member_default
  else if msc_ver bld then
    let member := GetAddress bld m method in
    let addr := member in
    let addr :=
      if win64 bld
      then (if load8 m addr =? 72 (* 0x48 *) then addr + 3 else addr)
      else (if load8 m addr =? 139 (* 0x8B *) then addr + 2 else addr) in
    if (load8 m addr =? 255 (* 0xFF *))
       && (N.land (N.shiftr (load8 m (addr + 1)) 4) 3 =? 2)
    then
      let jumptype := N.shiftr (load8 m (addr + 1)) 6 in
      let offset :=
        if jumptype =? 1 then load8 m (addr + 2)
        else if jumptype =? 2 then load_u32 m (addr + 2)
        else 0 in
      let index := offset / sizeof_ptr bld in
      if size <=? index then Member_default
      else Member_at index (vtable_at bld m vtable index)
    else
      match scan_slots bld m vtable member (N.to_nat size) 0 with
      | Some index => Member_at index member
      | None => Member_default
      end
  else
    let address := ref_ptr method in
    let offset := (address - 1) / sizeof_ptr bld in
    if size <=? offset then
      match scan_slots bld m vtable address (N.to_nat size) 0 with
      | Some index => Member_at index address
      | None => Member_default
      end
    else Member_at offset (vtable_at bld m vtable offset).

(** ** The static members of ClassProxy (lines 643-650), with the process
    memory they point into and the [ProtectMemory] calls made so far *)

Record State : Type := {
  memory : Memory;
  protections : list ProtectCall;
  target_size : N;
  target_vtable : N;
  target_cache : gmap N Member;
  original_vtable : list N;
  substitute_size : N;
  substitute_vtable : N;
  substitute_cache : gmap N Member;
  hooks : gmap N Detour
}.

(** Lines 653-668: the registry before any call. *)
Definition initial_state (m : Memory) : State :=
  {| memory := m; protections := [];
     target_size := 0; target_vtable := 0; target_cache := ∅;
     original_vtable := [];
     substitute_size := 0; substitute_vtable := 0; substitute_cache := ∅;
     hooks := ∅ |}.

Definition set_memory (st : State) (m : Memory) : State :=
  {| memory := m; protections := protections st;
     target_size := target_size st; target_vtable := target_vtable st;
     target_cache := target_cache st; original_vtable := original_vtable st;
     substitute_size := substitute_size st;
     substitute_vtable := substitute_vtable st;
     substitute_cache := substitute_cache st; hooks := hooks st |}.

Definition set_protections (st : State) (l : list ProtectCall) : State :=
  {| memory := memory st; protections := l;
     target_size := target_size st; target_vtable := target_vtable st;
     target_cache := target_cache st; original_vtable := original_vtable st;
     substitute_size := substitute_size st;
     substitute_vtable := substitute_vtable st;
     substitute_cache := substitute_cache st; hooks := hooks st |}.

Definition set_target_size (st : State) (n : N) : State :=
  {| memory := memory st; protections := protections st;
     target_size := n; target_vtable := target_vtable st;
     target_cache := target_cache st; original_vtable := original_vtable st;
     substitute_size := substitute_size st;
     substitute_vtable := substitute_vtable st;
     substitute_cache := substitute_cache st; hooks := hooks st |}.

Definition set_target_vtable (st : State) (p : N) : State :=
  {| memory := memory st; protections := protections st;
     target_size := target_size st; target_vtable := p;
     target_cache := target_cache st; original_vtable := original_vtable st;
     substitute_size := substitute_size st;
     substitute_vtable := substitute_vtable st;
     substitute_cache := substitute_cache st; hooks := hooks st |}.

Definition set_target_cache (st : State) (c : gmap N Member) : State :=
  {| memory := memory st; protections := protections st;
     target_size := target_size st; target_vtable := target_vtable st;
     target_cache := c; original_vtable := original_vtable st;
     substitute_size := substitute_size st;
     substitute_vtable := substitute_vtable st;
     substitute_cache := substitute_cache st; hooks := hooks st |}.

Definition set_original_vtable (st : State) (l : list N) : State :=
  {| memory := memory st; protections := protections st;
     target_size := target_size st; target_vtable := target_vtable st;
     target_cache := target_cache st; original_vtable := l;
     substitute_size := substitute_size st;
     substitute_vtable := substitute_vtable st;
     substitute_cache := substitute_cache st; hooks := hooks st |}.

Definition set_substitute_size (st : State) (n : N) : State :=
  {| memory := memory st; protections := protections st;
     target_size := target_size st; target_vtable := target_vtable st;
     target_cache := target_cache st; original_vtable := original_vtable st;
     substitute_size := n;
     substitute_vtable := substitute_vtable st;
     substitute_cache := substitute_cache st; hooks := hooks st |}.

Definition set_substitute_vtable (st : State) (p : N) : State :=
  {| memory := memory st; protections := protections st;
     target_size := target_size st; target_vtable := target_vtable st;
     target_cache := target_cache st; original_vtable := original_vtable st;
     substitute_size := substitute_size st;
     substitute_vtable := p;
     substitute_cache := substitute_cache st; hooks := hooks st |}.

Definition set_substitute_cache (st : State) (c : gmap N Member) : State :=
  {| memory := memory st; protections := protections st;
     target_size := target_size st; target_vtable := target_vtable st;
     target_cache := target_cache st; original_vtable := original_vtable st;
     substitute_size := substitute_size st;
     substitute_vtable := substitute_vtable st;
     substitute_cache := c; hooks := hooks st |}.

Definition set_hooks (st : State) (h : gmap N Detour) : State :=
  {| memory := memory st; protections := protections st;
     target_size := target_size st; target_vtable := target_vtable st;
     target_cache := target_cache st; original_vtable := original_vtable st;
     substitute_size := substitute_size st;
     substitute_vtable := substitute_vtable st;
     substitute_cache := substitute_cache st; hooks := h |}.

(** [ProtectMemory( p, len, protect )], result discarded. *)
Definition ProtectMemory (st : State) (p len : N) (flag : bool) : State :=
  set_protections st
    (protections st ++ [{| pMemory := p; uiLen := len; protect := flag |}]).

(** [target_vtable[i]], the live slot, and [original_vtable[i]], the
    snapshot.  [std::vector::operator[]] is only reached under
    [i < target_size]; past the end the embedding reads null. *)
Definition target_slot (st : State) (i : N) : N :=
  vtable_at bld (memory st) (target_vtable st) i.

Definition snapshot_at (st : State) (i : N) : N :=
  default 0 (original_vtable st !! N.to_nat i).

(** ** GetVirtualAddressInternal (lines 428-447) and its two instances *)

Definition GetVirtualAddressInternal (m : Memory) (cache : gmap N Member)
           (vtable size : N) (method : MethodRef) : Member * gmap N Member :=
  let member := GetAddress bld m method in
  match cache !! member with
  | Some found => (found, cache)
  | None =>
      let address := GetVirtualAddress m vtable size method in
      if index address <? size
      then (address, <[member := address]> cache)
      else (address, cache)
  end.

Definition GetTargetVirtualAddress (st : State) (method : MethodRef)
  : Member * State :=
  let '(found, cache) :=
    GetVirtualAddressInternal (memory st) (target_cache st)
      (target_vtable st) (target_size st) method in
  (found, set_target_cache st cache).

Definition GetSubstituteVirtualAddress (st : State) (method : MethodRef)
  : Member * State :=
  let '(found, cache) :=
    GetVirtualAddressInternal (memory st) (substitute_cache st)
      (substitute_vtable st) (substitute_size st) method in
  (found, set_substitute_cache st cache).

(** ** Initialize (lines 222-248)

    The two [for] loops walk memory until a null slot; they are given
    [fuel] iterations and [None] stands for a walk still running. *)

Fixpoint copy_slots (fuel : nat) (m : Memory) (vtable : N)
         (original : list N) : option (list N) :=
  match fuel with
  | O => None
  | S k =>
      if (N.of_nat (length original) <? vector_max_size)
         && negb (load_ptr bld m vtable =? 0)
      then copy_slots k m (vtable + sizeof_ptr bld)
                      (original ++ [load_ptr bld m vtable])
      else Some original
  end.

Fixpoint count_slots (fuel : nat) (m : Memory) (vtable size : N)
  : option N :=
  match fuel with
  | O => None
  | S k =>
      if negb (vtable_at bld m vtable size =? 0)
      then count_slots k m vtable (size + 1)
      else Some size
  end.

Definition Initialize (fuel : nat) (st : State) (instance substitute : N)
  : option (bool * State) :=
  if negb (target_vtable st =? 0) then Some (false, st)
  else
    let st := set_target_vtable st (GetVirtualTable (memory st) instance) in
    if (target_vtable st =? 0)
       || negb (IsExecutableAddress
                  (load_ptr bld (memory st) (target_vtable st)))
    then Some (false, set_target_vtable st 0)
    else
      match copy_slots fuel (memory st) (target_vtable st)
                       (original_vtable st) with
      | None => None
      | Some original =>
          let st := set_original_vtable st original in
          let st := set_target_size st
                      (N.of_nat (length (original_vtable st))) in
          let st := set_substitute_vtable st
                      (GetVirtualTable (memory st) substitute) in
          match count_slots fuel (memory st) (substitute_vtable st)
                            (substitute_size st) with
          | None => None
          | Some size => Some (true, set_substitute_size st size)
          end
      end.

(** ** IsHookedInternal (lines 449-467) *)

Definition IsHookedInternal_function (st : State) (original : N)
  : bool * State :=
  match hooks st !! original with
  | Some _ => (true, st)
  | None => (false, st)
  end.

Definition IsHookedInternal (st : State) (original : MethodRef)
  : bool * State :=
  match hooks st !! GetAddress bld (memory st) original with
  | Some _ => (true, st)
  | None =>
      let '(vtarget, st) := GetTargetVirtualAddress st original in
      if target_size st <=? index vtarget then (false, st)
      else (negb (target_slot st (index vtarget)
                  =? snapshot_at st (index vtarget)), st)
  end.

(** ** HookInternal (lines 469-534)

    Both overloads end in the same four statements (lines 487-491 and
    529-533): [hooks[address]] yields the entry for [address], inserting a
    default-constructed [Detouring::Hook] when there is none, and [Create]
    and [Enable] then act on that entry in place. *)

Definition install (st : State) (address subst : N) : bool * State :=
  let hook :=
    match hooks st !! address with
    | Some h => h
    | None => Detour_new
    end in
  let st := set_hooks st (<[address := hook]> (hooks st)) in
  let '(created, hook, m) :=
    Detour_Create hook (memory st) address subst in
  let st := set_memory (set_hooks st (<[address := hook]> (hooks st))) m in
  if negb created then (false, st)
  else
    let '(enabled, hook, m) := Detour_Enable hook (memory st) in
    (enabled,
     set_memory (set_hooks st (<[address := hook]> (hooks st))) m).

Definition HookInternal_function (st : State) (original : N)
           (substitute : MethodRef) : bool * State :=
  let address := original in
  if address =? 0 then (false, st)
  else
    match hooks st !! address with
    | Some _ => (false, st)
    | None =>
        let subst := GetAddress bld (memory st) substitute in
        if subst =? 0 then (false, st)
        else install st address subst
    end.

Definition HookInternal (st : State) (original substitute : MethodRef)
  : bool * State :=
  let '(target, st) := GetTargetVirtualAddress st original in
  if index target <? target_size st then
    if negb (target_slot st (index target) =? snapshot_at st (index target))
    then (false, st)
    else
      let '(subst, st) := GetSubstituteVirtualAddress st substitute in
      if substitute_size st <=? index subst then (false, st)
      else
        let slot := slot_addr bld (target_vtable st) (index target) in
        let st := ProtectMemory st slot (sizeof_ptr bld) false in
        let st := set_memory st
                    (store_ptr bld (memory st) slot (address subst)) in
        let st := ProtectMemory st slot (sizeof_ptr bld) true in
        (true, st)
  else
    let address := GetAddress bld (memory st) original in
    if address =? 0 then (false, st)
    else
      match hooks st !! address with
      | Some _ => (false, st)
      | None =>
          let subst := GetAddress bld (memory st) substitute in
          if subst =? 0 then (false, st)
          else install st address subst
      end.

(** ** UnHookInternal (lines 536-572)

    [hooks.erase( it )] destroys the [Detouring::Hook] it removes. *)

Definition erase (st : State) (address : N) (hook : Detour) : State :=
  set_memory (set_hooks st (delete address (hooks st)))
             (Detour_destroy hook (memory st)).

Definition UnHookInternal_function (st : State) (original : N)
  : bool * State :=
  match hooks st !! original with
  | Some hook => (true, erase st original hook)
  | None => (false, st)
  end.

Definition UnHookInternal (st : State) (original : MethodRef)
  : bool * State :=
  match hooks st !! GetAddress bld (memory st) original with
  | Some hook => (true, erase st (GetAddress bld (memory st) original) hook)
  | None =>
      let '(target, st) := GetTargetVirtualAddress st original in
      if target_size st <=? index target then (false, st)
      else
        let vfunction := snapshot_at st (index target) in
        if target_slot st (index target) =? vfunction then (false, st)
        else
          let slot := slot_addr bld (target_vtable st) (index target) in
          let st := ProtectMemory st slot (sizeof_ptr bld) false in
          let st := set_memory st (store_ptr bld (memory st) slot vfunction) in
          let st := ProtectMemory st slot (sizeof_ptr bld) true in
          (true, st)
  end.

(** ** CallInternal (lines 574-641) *)

Definition CallInternal_function (st : State) (instance original : N)
           (args : list N) : CallResult * State :=
  let target := Member_default in
  let addr := original in
  let target :=
    match hooks st !! addr with
    | Some hook =>
        let target := set_address target (Detour_GetTrampoline hook) in
        if negb (address target =? 0) then set_index target 0 else target
    | None => target
    end in
  let target :=
    if target_size st <=? index target then
      let target := set_address target addr in
      if negb (address target =? 0) then set_index target 0 else target
    else target in
  if target_size st <=? index target then (ReturnDefault, st)
  else (InvokeFunction (address target) instance args, st).

Definition CallInternal (st : State) (instance : N) (original : MethodRef)
           (args : list N) : CallResult * State :=
  let target := Member_default in
  let addr := GetAddress bld (memory st) original in
  let target :=
    match hooks st !! addr with
    | Some hook =>
        let target := set_address target (Detour_GetTrampoline hook) in
        if negb (address target =? 0) then set_index target 0 else target
    | None => target
    end in
  let '(target, st) :=
    if target_size st <=? index target then
      let '(target, st) := GetTargetVirtualAddress st original in
      if index target <? target_size st
      then (set_address target (snapshot_at st (index target)), st)
      else (target, st)
    else (target, st) in
  let target :=
    if target_size st <=? index target then
      let target := set_address target addr in
      if negb (address target =? 0) then set_index target 0 else target
    else target in
  if target_size st <=? index target then (ReturnDefault, st)
  else (InvokeMethod target instance args, st).

(** ** The public overloads (lines 260-386) *)

Definition IsHooked (st : State) (original : OriginalRef) : bool * State :=
  match original with
  | Function f => IsHookedInternal_function st f
  | Method r => IsHookedInternal st r
  end.

Definition Hook (st : State) (original : OriginalRef)
           (substitute : MethodRef) : bool * State :=
  match original with
  | Function f => HookInternal_function st f substitute
  | Method r => HookInternal st r substitute
  end.

Definition UnHook (st : State) (original : OriginalRef) : bool * State :=
  match original with
  | Function f => UnHookInternal_function st f
  | Method r => UnHookInternal st r
  end.

Definition Call (st : State) (instance : N) (original : OriginalRef)
           (args : list N) : CallResult * State :=
  match original with
  | Function f => CallInternal_function st instance f args
  | Method r => CallInternal st instance r args
  end.

(** ** Sequences of registry operations after Initialize *)

Inductive Op : Type :=
  | OpHook (original : OriginalRef) (substitute : MethodRef)
  | OpUnHook (original : OriginalRef)
  | OpIsHooked (original : OriginalRef)
  | OpCall (instance : N) (original : OriginalRef) (args : list N).

Definition step (st : State) (op : Op) : State :=
  match op with
  | OpHook o s => snd (Hook st o s)
  | OpUnHook o => snd (UnHook st o)
  | OpIsHooked o => snd (IsHooked st o)
  | OpCall i o a => snd (Call st i o a)
  end.

Definition run (st : State) (ops : list Op) : State :=
  fold_left step ops st.

(** ** Vocabulary of the properties *)

(** The raw address an [original] designates: [GetAddress( original )] for
    a pointer to member, the pointer itself for a plain function. *)
Definition raw_address (st : State) (original : OriginalRef) : N :=
  match original with
  | Function f => f
  | Method r => GetAddress bld (memory st) r
  end.

(** The [Member] the registry resolves [original] to against the target
    table: what [GetTargetVirtualAddress] returns in [st].  The plain
    function overloads never consult the table. *)
Definition resolve_target (st : State) (original : OriginalRef) : Member :=
  match original with
  | Function _ => Member_default
  | Method r => fst (GetTargetVirtualAddress st r)
  end.

Definition resolves_to_slot (st : State) (original : OriginalRef) : Prop :=
  match original with
  | Function _ => False
  | Method r => index (fst (GetTargetVirtualAddress st r)) < target_size st
  end.

Definition slot_hooked (st : State) (i : N) : Prop :=
  target_slot st i <> snapshot_at st i.

Definition hook_registered (st : State) (a : N) : Prop :=
  is_Some (hooks st !! a).

(** The target cache as resolving [original] leaves it. *)
Definition resolved_cache (st : State) (original : OriginalRef)
  : gmap N Member :=
  match original with
  | Function _ => target_cache st
  | Method r =>
      snd (GetVirtualAddressInternal (memory st) (target_cache st)
             (target_vtable st) (target_size st) r)
  end.

(** "Already hooked", in the two senses the registry knows: the slot the
    reference resolves to departs from the snapshot, or a trampoline hook
    is registered for its raw address. *)
Definition already_hooked (st : State) (original : OriginalRef) : Prop :=
  (resolves_to_slot st original
   /\ slot_hooked st (index (resolve_target st original)))
  \/ hook_registered st (raw_address st original).

(** An object whose table [Initialize] accepts. *)
Definition table_valid (m : Memory) (instance : N) : Prop :=
  GetVirtualTable m instance <> 0
  /\ IsExecutableAddress (load_ptr bld m (GetVirtualTable m instance))
     = true.

(** A table with a null slot at or after [from]. *)
Definition null_terminated (m : Memory) (vtable from : N) : Prop :=
  exists n, from <= n /\ vtable_at bld m vtable n = 0.

(** Every cached [Member] is a slot of a table of [size] entries. *)
Definition cache_sound (cache : gmap N Member) (size : N) : Prop :=
  forall k v, cache !! k = Some v -> index v < size.

Definition snapshot_pointers (st : State) : Prop :=
  forall i, pointer_sized bld (snapshot_at st i).

(** The trampoline the hook registered for [a] hands out, null when no
    hook is registered. *)
Definition trampoline_of (st : State) (a : N) : N :=
  match hooks st !! a with
  | Some hook => Detour_GetTrampoline hook
  | None => 0
  end.

(** The [Member] a [substitute] resolves to against the substitute
    table. *)
Definition resolve_substitute (st : State) (substitute : MethodRef)
  : Member :=
  fst (GetSubstituteVirtualAddress st substitute).

(** The members [Initialize] sets and nothing else is meant to touch. *)
Definition frozen (st st' : State) : Prop :=
  original_vtable st' = original_vtable st
  /\ target_size st' = target_size st
  /\ target_vtable st' = target_vtable st
  /\ substitute_size st' = substitute_size st
  /\ substitute_vtable st' = substitute_vtable st.

(** ** ~ClassProxy (lines 202-219)

    The loop walks the snapshot and the table side by side and stores a
    snapshot value wherever the live slot departs from it. *)

Fixpoint restore_slots (m : Memory) (vtable : N) (original : list N)
  : Memory :=
  match original with
  | [] => m
  | it :: rest =>
      let m :=
        if negb (load_ptr bld m vtable =? it)
        then store_ptr bld m vtable it
        else m in
      restore_slots m (vtable + sizeof_ptr bld) rest
  end.

Definition ClassProxy_destructor (st : State) : State :=
  if negb (target_vtable st =? 0) && negb (target_size st =? 0) then
    let len := target_size st * sizeof_ptr bld in
    let st := ProtectMemory st (target_vtable st) len false in
    let st := set_memory st
                (restore_slots (memory st) (target_vtable st)
                               (original_vtable st)) in
    ProtectMemory st (target_vtable st) len true
  else st.

(** A log of [ProtectMemory] calls made of brackets: a call lifting the
    protection of a range, then the call putting it back on the same
    range. *)
Fixpoint bracketed (l : list ProtectCall) : Prop :=
  match l with
  | [] => True
  | lift :: rest =>
      match rest with
      | [] => False
      | back :: rest =>
          protect lift = false /\ protect back = true
          /\ pMemory back = pMemory lift /\ uiLen back = uiLen lift
          /\ bracketed rest
      end
  end.

(** What holds of the registry from its first state on: the caches hold
    slots of their tables only, [target_size] is the length of the
    snapshot, and the snapshot holds pointers. *)
Definition registry_ok (st : State) : Prop :=
  cache_sound (target_cache st) (target_size st)
  /\ cache_sound (substitute_cache st) (substitute_size st)
  /\ target_size st = N.of_nat (length (original_vtable st))
  /\ snapshot_pointers st.

End Registry.

(** ** A concrete process image

    A 64-bit MSVC build with a two-slot [Target], a two-slot [Substitute],
    the compiler's virtual-call thunks for their methods and a few plain
    functions.  The examples of the properties below run on it. *)

Module Scenario.

Definition zero_memory : Memory := fun _ => 0.

Fixpoint poke_bytes (m : Memory) (a : N) (bytes : list N) : Memory :=
  match bytes with
  | [] => m
  | x :: rest => poke_bytes (store8 m a x) (a + 1) rest
  end.

Fixpoint poke_ptrs (b : Build) (m : Memory) (a : N) (ptrs : list N)
  : Memory :=
  match ptrs with
  | [] => m
  | x :: rest => poke_ptrs b (store_ptr b m a x) (a + sizeof_ptr b) rest
  end.

(** Layout:
    - 0x1000  a [Target] object, its table at 0x2000: f0 = 0x4000,
              f1 = 0x4100, then null;
    - 0x1100  a [Substitute] object, its table at 0x3000: 0x5000, 0x5100,
              then null;
    - 0x1200  an object whose first word is null;
    - 0x6000  thunk of [&Target::f1]:  mov rax,[rcx]; jmp [rax+8];
    - 0x6010  thunk of [&Target::f0]:  mov rax,[rcx]; jmp [rax];
    - 0x6100  thunk of [&Substitute::f1];
    - 0x7000, 0x7100, 0x9000  plain functions: push rbp; ret. *)
Definition image : Memory :=
  let m := zero_memory in
  let m := poke_ptrs MSVC_Win64 m 4096 [8192] in
  let m := poke_ptrs MSVC_Win64 m 4352 [12288] in
  let m := poke_ptrs MSVC_Win64 m 8192 [16384; 16640; 0] in
  let m := poke_ptrs MSVC_Win64 m 12288 [20480; 20736; 0] in
  let m := poke_bytes m 24576 [72; 139; 1; 255; 96; 8] in
  let m := poke_bytes m 24592 [72; 139; 1; 255; 32] in
  let m := poke_bytes m 24832 [72; 139; 1; 255; 96; 8] in
  let m := poke_bytes m 28672 [85; 195] in
  let m := poke_bytes m 28928 [85; 195] in
  poke_bytes m 36864 [85; 195].

Definition target_instance : N := 4096.
Definition substitute_instance : N := 4352.
Definition plain_instance : N := 4608.

Definition member_ref (p : N) : MethodRef :=
  {| ref_ptr := p; ref_adj := 0; ref_home := 0 |}.

Definition Target_f1 : MethodRef := member_ref 24576.
Definition Target_f0 : MethodRef := member_ref 24592.
Definition Substitute_f1 : MethodRef := member_ref 24832.
Definition Target_g : MethodRef := member_ref 28672.
Definition Substitute_g : MethodRef := member_ref 28928.
Definition Target_far : MethodRef := member_ref 36864.

(** A trampoline engine that detours functions below 0x8000 only, keeps
    the trampoline of the function at [a] at [a + 0x10000], and leaves the
    memory alone.  A [Detouring::Hook] is its trampoline, null before
    [Create]. *)
Definition msvc64 : Platform :=
  {| build := MSVC_Win64;
     npos := 18446744073709551615;
     vector_max_size := 1152921504606846975;
     IsExecutableAddress := fun a => (16384 <=? a) && (a <? 40960);
     Detour := N;
     Detour_new := 0;
     Detour_Create := fun h m a s =>
       if a <? 32768 then (true, a + 65536, m) else (false, h, m);
     Detour_Enable := fun h m => (true, h, m);
     Detour_GetTrampoline := fun h => h;
     Detour_destroy := fun h m => m |}.

(** The same engine under a 64-bit compiler other than MSVC. *)
Definition gcc64 : Platform :=
  {| build := Other64;
     npos := 18446744073709551615;
     vector_max_size := 1152921504606846975;
     IsExecutableAddress := fun a => (16384 <=? a) && (a <? 40960);
     Detour := N;
     Detour_new := 0;
     Detour_Create := fun h m a s =>
       if a <? 32768 then (true, a + 65536, m) else (false, h, m);
     Detour_Enable := fun h m => (true, h, m);
     Detour_GetTrampoline := fun h => h;
     Detour_destroy := fun h m => m |}.

Definition fresh : @State msvc64 := initial_state image.

(** The registry after [Initialize( target, substitute )]. *)
Definition ready : @State msvc64 :=
  match Initialize 8 fresh target_instance substitute_instance with
  | Some (_, st) => st
  | None => fresh
  end.

(** [Hook( &Target::f1, &Substitute::f1 )] after [Initialize]: slot 1 of
    the target table now holds [Substitute::f1]. *)
Definition hooked : @State msvc64 :=
  snd (Hook ready (Method Target_f1) Substitute_f1).

(** [Hook( &Target::g, &Substitute::g )] on the fresh registry. *)
Definition detoured : @State msvc64 :=
  snd (Hook fresh (Method Target_g) Substitute_g).

(** A second copy of the thunk of [&Target::f1], as another module of the
    program would hold one, at 0x6020. *)
Definition image_two_thunks : Memory :=
  poke_bytes image 24608 [72; 139; 1; 255; 96; 8].

Definition Target_f1_elsewhere : MethodRef := member_ref 24608.

(** On that image: [Initialize], then
    [Hook( &Target::f1, &Substitute::f1 )] through the first thunk. *)
Definition hooked_once : @State msvc64 :=
  match Initialize 8 (initial_state image_two_thunks)
                   target_instance substitute_instance with
  | Some (_, st) => snd (Hook st (Method Target_f1) Substitute_f1)
  | None => initial_state image_two_thunks
  end.

(** The thunk of a virtual member beyond the engine's reach, at 0x9010:
    mov rax,[rcx]; jmp [rax]. *)
Definition image_far_thunk : Memory :=
  poke_bytes image 36880 [72; 139; 1; 255; 32].

Definition Target_f0_far : MethodRef := member_ref 36880.

(** On that image: [Hook( &Target::f0, &Substitute::f1 )] before
    [Initialize], which the engine turns down, then [Initialize]. *)
Definition refused_then_ready : @State msvc64 :=
  let st := snd (Hook (initial_state image_far_thunk)
                      (Method Target_f0_far) Substitute_f1) in
  match Initialize 8 st target_instance substitute_instance with
  | Some (_, st) => st
  | None => st
  end.

(** Outside MSVC the pointer to member [&Target::f1] holds 9, the offset
    of slot 1 plus one, and every call that takes it by value has a copy
    of its own: one at 0x7FFF0000, one at 0x7FFEFFA0.  The substitute's
    [&Substitute::f1] holds 9 as well. *)
Definition f1_from_here : MethodRef :=
  {| ref_ptr := 9; ref_adj := 0; ref_home := 2147418112 |}.

Definition f1_from_there : MethodRef :=
  {| ref_ptr := 9; ref_adj := 0; ref_home := 2147418016 |}.

Definition substitute_f1_copy : MethodRef :=
  {| ref_ptr := 9; ref_adj := 0; ref_home := 2147418080 |}.

Definition gcc_ready : @State gcc64 :=
  match Initialize 8 (initial_state image)
                   target_instance substitute_instance with
  | Some (_, st) => st
  | None => initial_state image
  end.

(** [Hook( &Target::f1, &Substitute::f1 )] from the first call path. *)
Definition gcc_hooked : @State gcc64 :=
  snd (Hook gcc_ready (Method f1_from_here) substitute_f1_copy).

End Scenario.

(** * Properties *)

(** Closing a goal split into its cases, and unfolding the [Member]
    bookkeeping of [CallInternal]. *)
Ltac settle :=
  repeat split; intros;
  solve [reflexivity | contradiction | congruence | lia | tauto].

Ltac member_simpl :=
  cbn [negb fst snd callee_of set_address set_index address index
       Member_default target_size original_vtable set_target_cache].

(** ** Memory: a stored pointer reads back, and nothing else moves *)

Lemma store_le_outside (n : nat) :
  forall (m : Memory) (a v x : N),
    x < a \/ a + N.of_nat n <= x -> store_le n m a v x = m x.
Proof.
  induction n as [|k IH]; intros m a v x Hx; simpl; [reflexivity|].
  rewrite IH by lia. unfold store8.
  destruct (N.eqb_spec x a); [lia | reflexivity].
Qed.

Lemma load8_store_le_outside (n : nat) (m : Memory) (a v x : N) :
  x < a \/ a + N.of_nat n <= x -> load8 (store_le n m a v) x = load8 m x.
Proof. intros Hx. unfold load8. now rewrite store_le_outside. Qed.

Lemma load_le_store_le (n : nat) :
  forall (m : Memory) (a v : N),
    load_le n (store_le n m a v) a = v mod 256 ^ N.of_nat n.
Proof.
  induction n as [|k IH]; intros m a v.
  - simpl. now rewrite N.mod_1_r.
  - cbn [load_le store_le]. rewrite IH.
    rewrite load8_store_le_outside by lia.
    unfold load8, store8. rewrite N.eqb_refl.
    rewrite Nat2N.inj_succ, N.pow_succ_r', N.Div0.mod_mul_r.
    now rewrite N.Div0.mod_mod.
Qed.

Lemma load_ptr_store_ptr (b : Build) (m : Memory) (a v : N) :
  pointer_sized b v -> load_ptr b (store_ptr b m a v) a = v.
Proof.
  intros Hv. unfold load_ptr, store_ptr. rewrite load_le_store_le.
  now apply N.mod_small.
Qed.

Lemma store_ptr_outside (b : Build) (m : Memory) (a v x : N) :
  x < a \/ a + sizeof_ptr b <= x -> store_ptr b m a v x = m x.
Proof. apply store_le_outside. Qed.

Lemma load_le_bound (n : nat) :
  forall (m : Memory) (a : N), load_le n m a < 256 ^ N.of_nat n.
Proof.
  induction n as [|k IH]; intros m a.
  - simpl. lia.
  - cbn [load_le]. rewrite Nat2N.inj_succ, N.pow_succ_r'.
    specialize (IH m (a + 1)).
    assert (load8 m a < 256) by (unfold load8; apply N.mod_lt; lia).
    nia.
Qed.

Lemma load_ptr_pointer_sized (b : Build) (m : Memory) (a : N) :
  pointer_sized b (load_ptr b m a).
Proof. apply load_le_bound. Qed.

Section Properties.

Context {P : Platform}.

Local Abbreviation bld := (@build P).

Implicit Types (st : @State P) (o : OriginalRef) (r s : MethodRef).

(** ** The cached resolver *)

Lemma set_target_cache_id st : set_target_cache st (target_cache st) = st.
Proof. now destruct st. Qed.

Lemma GetVirtualAddressInternal_hit m cache vtable size r found :
  cache !! GetAddress bld m r = Some found ->
  GetVirtualAddressInternal m cache vtable size r = (found, cache).
Proof. intros H. unfold GetVirtualAddressInternal. now rewrite H. Qed.

Lemma GetVirtualAddressInternal_miss m cache vtable size r :
  cache !! GetAddress bld m r = None ->
  GetVirtualAddressInternal m cache vtable size r
  = (GetVirtualAddress m vtable size r,
     if index (GetVirtualAddress m vtable size r) <? size
     then <[GetAddress bld m r := GetVirtualAddress m vtable size r]> cache
     else cache).
Proof.
  intros H. unfold GetVirtualAddressInternal. rewrite H.
  now destruct (_ <? _).
Qed.

(** A resolution that does not land in the table leaves the cache alone. *)
Lemma GetVirtualAddressInternal_not_found m cache vtable size r :
  size <= index (fst (GetVirtualAddressInternal m cache vtable size r)) ->
  snd (GetVirtualAddressInternal m cache vtable size r) = cache.
Proof.
  unfold GetVirtualAddressInternal.
  destruct (cache !! _) as [found|]; [reflexivity|].
  destruct (N.ltb_spec (index (GetVirtualAddress m vtable size r)) size);
    simpl; [lia | reflexivity].
Qed.

Lemma GetTargetVirtualAddress_eq st r :
  GetTargetVirtualAddress st r
  = (resolve_target st (Method r),
     set_target_cache st (resolved_cache st (Method r))).
Proof.
  unfold GetTargetVirtualAddress, resolve_target, resolved_cache.
  unfold GetTargetVirtualAddress.
  now destruct (GetVirtualAddressInternal _ _ _ _ _).
Qed.

Lemma resolved_cache_cached st o :
  is_Some (target_cache st !! raw_address st o) ->
  resolved_cache st o = target_cache st.
Proof.
  destruct o as [f|r]; [reflexivity|]. intros [found H]. simpl in *.
  now rewrite (GetVirtualAddressInternal_hit _ _ _ _ _ _ H).
Qed.

Lemma resolved_cache_not_found st o :
  ~ resolves_to_slot st o -> resolved_cache st o = target_cache st.
Proof.
  destruct o as [f|r]; [reflexivity|]. simpl. intros H.
  apply GetVirtualAddressInternal_not_found.
  unfold GetTargetVirtualAddress in H.
  destruct (GetVirtualAddressInternal _ _ _ _ _); simpl in *. lia.
Qed.

(** The cached resolver on one copy of a reference, that is on one key.
    It stores an entry only for a resolution that lands in the table
    ([index < size]) and never for a not-found result.  Resolving the
    same copy twice returns the same [Member] and leaves the cache as the
    first resolution left it; once it has resolved, later resolutions
    return the cached [Member] whatever the table holds (no rescan); a
    copy that does not resolve leaves no entry, so the next resolution
    goes through [GetVirtualAddress] again. *)
Theorem cached_resolver_memoises_successes_only
        (m : Memory) (cache : gmap N Member) (vtable size : N) r :
  let key := GetAddress bld m r in
  let found := fst (GetVirtualAddressInternal m cache vtable size r) in
  let cache' := snd (GetVirtualAddressInternal m cache vtable size r) in
  (cache' = cache
   \/ (cache !! key = None /\ index found < size
       /\ cache' = <[key := found]> cache))
  /\ (size <= index found -> cache' = cache)
  /\ GetVirtualAddressInternal m cache' vtable size r = (found, cache')
  /\ (index found < size ->
      forall m' vtable' size',
        GetAddress bld m' r = key ->
        GetVirtualAddressInternal m' cache' vtable' size' r
        = (found, cache'))
  /\ (cache_sound cache size -> size <= index found ->
      cache' !! key = None
      /\ forall m' vtable' size',
          GetAddress bld m' r = key ->
          fst (GetVirtualAddressInternal m' cache' vtable' size' r)
          = GetVirtualAddress m' vtable' size' r).
Proof.
  intros key found cache'. subst found cache'.
  destruct (cache !! key) as [v|] eqn:Hk.
  - rewrite (GetVirtualAddressInternal_hit _ _ _ _ _ _ Hk). simpl.
    repeat split.
    + now left.
    + now apply GetVirtualAddressInternal_hit.
    + intros _ m' vtable' size' Hkey.
      apply GetVirtualAddressInternal_hit. now rewrite Hkey.
    + specialize (H _ _ Hk). lia.
    + specialize (H _ _ Hk). lia.
  - rewrite (GetVirtualAddressInternal_miss _ _ _ _ _ Hk).
    destruct (N.ltb_spec (index (GetVirtualAddress m vtable size r)) size)
      as [Hlt|Hge]; simpl.
    + repeat split; try lia.
      * right. now repeat split.
      * apply GetVirtualAddressInternal_hit. apply lookup_insert_eq.
      * intros _ m' vtable' size' Hkey.
        apply GetVirtualAddressInternal_hit.
        rewrite Hkey. apply lookup_insert_eq.
    + repeat split; try lia.
      * now left.
      * rewrite (GetVirtualAddressInternal_miss _ _ _ _ _ Hk).
        destruct (N.ltb_spec (index (GetVirtualAddress m vtable size r)) size);
          [lia | reflexivity].
      * assumption.
      * intros m' vtable' size' Hkey.
        rewrite GetVirtualAddressInternal_miss by now rewrite Hkey.
        reflexivity.
Qed.

(** ** IsHooked *)

(** C5.  [IsHooked] answers true exactly when a trampoline hook is
    registered for the raw address of the reference, or the reference
    resolves to a target slot ([index < target_size]) whose live value
    differs from the snapshot at that index; in every other case, a
    reference that resolves to nothing included, it answers false. *)
Theorem IsHooked_true_iff st o :
  fst (IsHooked st o) = true
  <-> hook_registered st (raw_address st o)
      \/ (resolves_to_slot st o
          /\ slot_hooked st (index (resolve_target st o))).
Proof.
  unfold hook_registered, slot_hooked.
  destruct o as [f|r]; simpl.
  - unfold IsHookedInternal_function.
    destruct (hooks st !! f) as [h|]; simpl; split.
    + intros _. left. eauto.
    + reflexivity.
    + discriminate.
    + intros [[h Hh]|[[] _]]. discriminate.
  - unfold IsHookedInternal.
    destruct (hooks st !! GetAddress bld (memory st) r) as [h|] eqn:Hh.
    + simpl. split; [intros _; left; eauto | reflexivity].
    + rewrite !GetTargetVirtualAddress_eq. cbn [fst snd].
      unfold target_slot, snapshot_at. cbn [target_size memory target_vtable
        original_vtable set_target_cache].
      destruct (N.leb_spec (target_size st)
                  (index (resolve_target st (Method r)))) as [Hge|Hlt]; simpl.
      * split; [discriminate|].
        intros [[h' Hh']|[Hr _]]; [discriminate|].
        unfold resolve_target in Hge. lia.
      * rewrite negb_true_iff, N.eqb_neq.
        unfold resolve_target in *.
        split; [intros Hne; right; now split|].
        intros [[h' Hh']|[_ Hne]]; [discriminate | exact Hne].
Qed.

(** ** Call *)

Lemma zero_leb (x : N) : (0 <=? x) = true.
Proof. apply N.leb_le. lia. Qed.

(** C9.  While [target_size] is zero, that is before [Initialize] has
    succeeded, [Call] returns the value-initialised result and calls
    through nothing, for every instance, reference and argument list:
    a registered trampoline and a non-null raw address are both turned
    down by the comparison of the index with [target_size]. *)
Theorem Call_before_Initialize_returns_default
        st (instance : N) o (args : list N) :
  target_size st = 0 ->
  fst (Call st instance o args) = ReturnDefault.
Proof.
  intros Hsize. destruct o as [f|r]; simpl.
  - unfold CallInternal_function. rewrite Hsize, !zero_leb. reflexivity.
  - unfold CallInternal. rewrite Hsize, zero_leb.
    rewrite GetTargetVirtualAddress_eq.
    cbn [target_size set_target_cache]. rewrite Hsize.
    destruct (index (resolve_target st (Method r)) <? 0);
      cbn [target_size set_target_cache]; rewrite Hsize, !zero_leb;
      reflexivity.
Qed.

(** X19.  With a table of at least one slot and a sentinel index outside
    it, [Call] follows the precedence trampoline, snapshot, raw address,
    default. *)
Lemma Call_precedence st (instance : N) o (args : list N) :
  0 < target_size st ->
  target_size st <= npos ->
  let a := raw_address st o in
  let i := index (resolve_target st o) in
  let result := fst (Call st instance o args) in
  (trampoline_of st a <> 0 ->
   callee_of result = Some (trampoline_of st a))
  /\ (trampoline_of st a = 0 -> resolves_to_slot st o ->
      callee_of result = Some (snapshot_at st i))
  /\ (trampoline_of st a = 0 -> ~ resolves_to_slot st o -> a <> 0 ->
      callee_of result = Some a)
  /\ (trampoline_of st a = 0 -> ~ resolves_to_slot st o -> a = 0 ->
      result = ReturnDefault).
Proof.
  intros Hpos Hnpos a i result. subst a i result.
  assert (Hz : (target_size st <=? 0) = false) by (apply N.leb_gt; lia).
  assert (Hn : (target_size st <=? npos) = true) by (apply N.leb_le; lia).
  destruct o as [f|r]; cbn [Call raw_address resolve_target resolves_to_slot].
  - unfold CallInternal_function, trampoline_of. member_simpl.
    destruct (hooks st !! f) as [h|];
      [destruct (N.eqb_spec (Detour_GetTrampoline h) 0) as [Ht|Ht]|];
      destruct (N.eqb_spec f 0) as [Hf|Hf];
      repeat (progress (member_simpl; rewrite ?Hz, ?Hn)); settle.
  - unfold CallInternal, trampoline_of.
    set (raw := GetAddress bld (memory st) r).
    rewrite !GetTargetVirtualAddress_eq.
    set (found := resolve_target st (Method r)).
    unfold snapshot_at.
    assert (Hfound : (index found <? target_size st)
                     = negb (target_size st <=? index found)).
    { destruct (N.ltb_spec (index found) (target_size st));
        destruct (N.leb_spec (target_size st) (index found)); simpl; lia. }
    member_simpl. rewrite Hfound.
    destruct (N.leb_spec (target_size st) (index found)) as [Hge|Hlt];
      [ assert (Hfl : (target_size st <=? index found) = true)
          by (apply N.leb_le; lia)
      | assert (Hfl : (target_size st <=? index found) = false)
          by (apply N.leb_gt; lia) ];
      (destruct (hooks st !! raw) as [h|];
       [destruct (N.eqb_spec (Detour_GetTrampoline h) 0) as [Ht|Ht]|]);
      destruct (N.eqb_spec raw 0) as [Hraw|Hraw];
      repeat (progress (member_simpl; rewrite ?Hz, ?Hn, ?Hfl)); settle.
Qed.

(** ** What the operations leave alone *)

Lemma GetSubstituteVirtualAddress_eq st s :
  exists cache,
    GetSubstituteVirtualAddress st s
    = (resolve_substitute st s, set_substitute_cache st cache).
Proof.
  unfold resolve_substitute, GetSubstituteVirtualAddress.
  destruct (GetVirtualAddressInternal _ _ _ _ _) as [found cache].
  now exists cache.
Qed.

Lemma resolve_substitute_set_target_cache st cache s :
  resolve_substitute (set_target_cache st cache) s = resolve_substitute st s.
Proof.
  unfold resolve_substitute, GetSubstituteVirtualAddress. simpl.
  now destruct (GetVirtualAddressInternal _ _ _ _ _).
Qed.

(** What [install] does to the registry: the hook map and the memory. *)
Lemma install_frame st a subst :
  frozen st (snd (install st a subst))
  /\ target_cache (snd (install st a subst)) = target_cache st
  /\ substitute_cache (snd (install st a subst)) = substitute_cache st
  /\ protections (snd (install st a subst)) = protections st
  /\ is_Some (hooks (snd (install st a subst)) !! a).
Proof.
  unfold install, frozen.
  destruct (Detour_Create _ _ _ _) as [[created h1] m1]. 
  destruct created; cbn [negb].
  - destruct (Detour_Enable _ _) as [[enabled h2] m2]. simpl.
    repeat split. rewrite lookup_insert_eq. eauto.
  - simpl. repeat split. rewrite lookup_insert_eq. eauto.
Qed.

Lemma Hook_frozen st o s : frozen st (snd (Hook st o s)).
Proof.
  destruct o as [f|r]; simpl.
  - unfold HookInternal_function.
    destruct (f =? 0); [now repeat split|].
    destruct (hooks st !! f); [now repeat split|].
    destruct (_ =? 0); [now repeat split|].
    apply install_frame.
  - unfold HookInternal. rewrite GetTargetVirtualAddress_eq.
    set (st1 := set_target_cache st _).
    destruct (_ <? _).
    + destruct (negb _); [now repeat split|].
      destruct (GetSubstituteVirtualAddress_eq st1 s) as [c ->].
      destruct (_ <=? _); now repeat split.
    + destruct (_ =? 0); [now repeat split|].
      destruct (hooks st1 !! _); [now repeat split|].
      destruct (_ =? 0); [now repeat split|].
      apply (install_frame st1).
Qed.

Lemma UnHook_frozen st o : frozen st (snd (UnHook st o)).
Proof.
  destruct o as [f|r]; simpl.
  - unfold UnHookInternal_function.
    destruct (hooks st !! f); now repeat split.
  - unfold UnHookInternal.
    destruct (hooks st !! _); [now repeat split|].
    rewrite GetTargetVirtualAddress_eq.
    destruct (_ <=? _); [now repeat split|].
    destruct (_ =? _); now repeat split.
Qed.

Lemma IsHooked_frozen st o : frozen st (snd (IsHooked st o)).
Proof.
  destruct o as [f|r]; simpl.
  - unfold IsHookedInternal_function.
    destruct (hooks st !! f); now repeat split.
  - unfold IsHookedInternal.
    destruct (hooks st !! _); [now repeat split|].
    rewrite GetTargetVirtualAddress_eq.
    destruct (_ <=? _); now repeat split.
Qed.

Lemma Call_frozen st i o a : frozen st (snd (Call st i o a)).
Proof.
  destruct o as [f|r]; simpl.
  - unfold CallInternal_function.
    destruct (_ <=? _); now repeat split.
  - unfold CallInternal. rewrite GetTargetVirtualAddress_eq.
    destruct (_ <=? _).
    + destruct (_ <? _); destruct (_ <=? _); now repeat split.
    + destruct (_ <=? _); now repeat split.
Qed.

Lemma frozen_refl st : frozen st st.
Proof. now repeat split. Qed.

Lemma frozen_trans st1 st2 st3 :
  frozen st1 st2 -> frozen st2 st3 -> frozen st1 st3.
Proof. unfold frozen. intuition congruence. Qed.

Lemma step_frozen st op : frozen st (step st op).
Proof.
  destruct op; simpl;
    auto using Hook_frozen, UnHook_frozen, IsHooked_frozen, Call_frozen.
Qed.

Lemma run_frozen ops : forall st, frozen st (run st ops).
Proof.
  induction ops as [|op ops IH]; intros st; simpl.
  - apply frozen_refl.
  - eapply frozen_trans; [apply step_frozen | apply IH].
Qed.

(** ** Hook *)

(** C3, as amended.  [Hook] on a member that is already hooked, in that
    it resolves to a target slot whose live value differs from the
    snapshot, or in that it resolves to no target slot and a trampoline
    hook is registered for its raw address, returns false; it writes no
    memory, calls [ProtectMemory] not at all and leaves the hook map, the
    snapshot, the sizes, the table pointers and the substitute cache as
    they were.  The one member it may change is the target cache, which
    holds the memoised resolution of the reference afterwards; when the
    reference was cached already, or resolves to no slot, the registry is
    unchanged altogether.  A member with a hook registered for its raw
    address that also resolves to an untouched slot is not covered: the
    statement neither promises nor denies anything there. *)
Theorem Hook_on_hooked_member_fails st o s :
  (resolves_to_slot st o
   /\ slot_hooked st (index (resolve_target st o)))
  \/ (~ resolves_to_slot st o
      /\ hook_registered st (raw_address st o)) ->
  Hook st o s = (false, set_target_cache st (resolved_cache st o))
  /\ (is_Some (target_cache st !! raw_address st o)
      \/ ~ resolves_to_slot st o ->
      Hook st o s = (false, st)).
Proof.
  intros Hhooked.
  assert (Hmain :
    Hook st o s = (false, set_target_cache st (resolved_cache st o))).
  { destruct o as [f|r]; simpl in *.
    - rewrite set_target_cache_id.
      destruct Hhooked as [[[] _]|[_ [h Hh]]].
      unfold HookInternal_function. rewrite Hh.
      now destruct (f =? 0).
    - unfold HookInternal. rewrite GetTargetVirtualAddress_eq in *.
      cbn [fst snd] in *.
      unfold slot_hooked, target_slot, snapshot_at in *.
      cbn [target_size memory target_vtable original_vtable hooks
           set_target_cache].
      destruct Hhooked as [[Hlt Hne]|[Hge [h Hh]]].
      + apply N.ltb_lt in Hlt. rewrite Hlt.
        apply N.eqb_neq in Hne. now rewrite Hne.
      + apply N.ltb_nlt in Hge. rewrite Hge, Hh.
        now destruct (_ =? 0). }
  split; [exact Hmain|].
  intros Hsame. rewrite Hmain.
  assert (resolved_cache st o = target_cache st) as ->
    by (destruct Hsame;
        [now apply resolved_cache_cached | now apply resolved_cache_not_found]).
  now rewrite set_target_cache_id.
Qed.

(** C2 (defect).  On the non-slot path of [Hook], [hooks[address]]
    enters the handle in the hook map before [Create] runs, and no path
    removes it: when [Create] fails, or [Enable] after it, [Hook] returns
    false and the map keeps an entry for the raw address of the original,
    which it did not have before. *)
Theorem Hook_failed_install_leaves_entry st o s :
  let a := raw_address st o in
  let subst := GetAddress bld (memory st) s in
  let created := Detour_Create Detour_new (memory st) a subst in
  ~ resolves_to_slot st o ->
  a <> 0 ->
  hooks st !! a = None ->
  subst <> 0 ->
  created.1.1 = false
  \/ (Detour_Enable created.1.2 created.2).1.1 = false ->
  fst (Hook st o s) = false
  /\ is_Some (hooks (snd (Hook st o s)) !! a).
Proof.
  intros a subst created Hres Ha Hnone Hsubst Hfail.
  assert (Hinstall :
    fst (install st a subst) = false
    /\ is_Some (hooks (snd (install st a subst)) !! a)).
  { split; [|apply install_frame].
    unfold install. rewrite Hnone. simpl.
    fold created. destruct created as [[c h1] m1]. simpl in Hfail.
    destruct c; simpl; [|reflexivity].
    destruct (Detour_Enable h1 m1) as [[e h2] m2]. simpl in *.
    now destruct Hfail. }
  apply N.eqb_neq in Ha, Hsubst.
  destruct o as [f|r]; simpl in *.
  - unfold HookInternal_function. subst a subst.
    now rewrite Ha, Hnone, Hsubst.
  - unfold HookInternal. rewrite GetTargetVirtualAddress_eq in *.
    cbn [fst snd] in *.
    rewrite (resolved_cache_not_found st (Method r)), set_target_cache_id
      by (simpl; now rewrite GetTargetVirtualAddress_eq).
    apply N.ltb_nlt in Hres. subst a subst.
    now rewrite Hres, Ha, Hnone, Hsubst.
Qed.

(** ** UnHook *)

(** C4, as amended.  [UnHook]: when a trampoline hook is registered for
    the raw address, it is erased (removed and destroyed) and the result
    is true; otherwise, when the reference resolves to no target slot,
    the result is false and the registry is unchanged; otherwise, when
    the live slot equals the snapshot, the result is false, and the
    registry is unchanged but for the target cache, which holds the
    memoised resolution of the reference (unchanged altogether when it
    was cached before); otherwise the snapshot value is stored into that
    one slot between two [ProtectMemory] calls, every byte outside the
    slot keeps its value, the result is true and the slot reads the
    snapshot value again. *)
Theorem UnHook_cases st o :
  let a := raw_address st o in
  let i := index (resolve_target st o) in
  let slot := slot_addr bld (target_vtable st) i in
  (forall h, hooks st !! a = Some h ->
     UnHook st o = (true, erase st a h))
  /\ (hooks st !! a = None -> ~ resolves_to_slot st o ->
      UnHook st o = (false, st))
  /\ (hooks st !! a = None -> resolves_to_slot st o ->
      ~ slot_hooked st i ->
      UnHook st o = (false, set_target_cache st (resolved_cache st o))
      /\ (is_Some (target_cache st !! a) -> UnHook st o = (false, st)))
  /\ (hooks st !! a = None -> resolves_to_slot st o ->
      slot_hooked st i ->
      let st' := snd (UnHook st o) in
      fst (UnHook st o) = true
      /\ memory st' = store_ptr bld (memory st) slot (snapshot_at st i)
      /\ (forall x, x < slot \/ slot + sizeof_ptr bld <= x ->
          memory st' x = memory st x)
      /\ (pointer_sized bld (snapshot_at st i) ->
          target_slot st' i = snapshot_at st i)
      /\ protections st'
         = protections st
           ++ [ {| pMemory := slot; uiLen := sizeof_ptr bld;
                   protect := false |};
                {| pMemory := slot; uiLen := sizeof_ptr bld;
                   protect := true |} ]
      /\ hooks st' = hooks st
      /\ target_cache st' = resolved_cache st o
      /\ substitute_cache st' = substitute_cache st
      /\ frozen st st').
Proof.
  intros a i slot. subst a i slot.
  destruct o as [f|r]; simpl.
  - unfold UnHookInternal_function.
    repeat split; intros; try contradiction.
    + now rewrite H.
    + now rewrite H.
  - unfold UnHookInternal.
    rewrite !GetTargetVirtualAddress_eq. cbn [fst snd].
    unfold slot_hooked, target_slot, snapshot_at.
    cbn [target_size memory target_vtable original_vtable hooks
         set_target_cache].
    set (raw := GetAddress bld (memory st) r).
    set (found := resolve_target st (Method r)).
    split; [intros h Hh; now rewrite Hh|].
    split.
    { intros Hnone Hres. rewrite Hnone.
      assert (Hge : (target_size st <=? index found) = true)
        by (apply N.leb_le; lia).
      rewrite Hge.
      rewrite (resolved_cache_not_found st (Method r)), set_target_cache_id.
      - reflexivity.
      - simpl. now rewrite GetTargetVirtualAddress_eq. }
    split.
    { intros Hnone Hres Hsame. rewrite Hnone.
      apply N.leb_gt in Hres. rewrite Hres.
      assert (Heq : vtable_at bld (memory st) (target_vtable st) (index found)
                    = default 0 (original_vtable st !! N.to_nat (index found))).
      { destruct (N.eq_dec
          (vtable_at bld (memory st) (target_vtable st) (index found))
          (default 0 (original_vtable st !! N.to_nat (index found))));
          [assumption | contradiction]. }
      apply N.eqb_eq in Heq. rewrite Heq.
      split; [reflexivity|].
      intros Hcached.
      rewrite (resolved_cache_cached st (Method r)) by exact Hcached.
      now rewrite set_target_cache_id. }
    intros Hnone Hres Hne. rewrite Hnone.
    apply N.leb_gt in Hres. rewrite Hres.
    apply N.eqb_neq in Hne. rewrite Hne.
    cbn [fst snd memory protections hooks target_cache substitute_cache
         ProtectMemory set_memory set_protections set_target_cache
         target_vtable].
    repeat split.
    + intros x Hx. now apply store_ptr_outside.
    + intros Hptr. unfold vtable_at. now apply load_ptr_store_ptr.
    + now rewrite <- app_assoc.
Qed.

(** ** The snapshot *)

(** C8.  No sequence of [Hook], [UnHook], [IsHooked] and [Call] changes
    the snapshot: [original_vtable] and [target_size] stay as they were,
    so [snapshot[i]] keeps its value for every [i < target_size].  In
    particular a successful [Hook] of the slot [i] a reference resolves
    to stores the substitute's address [X] into the live slot [i]: the
    slot then reads [X], every byte outside it keeps its value, and
    [snapshot[i]] is what it was. *)
Theorem snapshot_is_never_mutated st (ops : list Op) r s :
  (original_vtable (run st ops) = original_vtable st
   /\ target_size (run st ops) = target_size st
   /\ forall i, i < target_size st ->
        snapshot_at (run st ops) i = snapshot_at st i)
  /\ (resolves_to_slot st (Method r) ->
      fst (Hook st (Method r) s) = true ->
      let i := index (resolve_target st (Method r)) in
      let slot := slot_addr bld (target_vtable st) i in
      let X := address (resolve_substitute st s) in
      let st' := snd (Hook st (Method r) s) in
      memory st' = store_ptr bld (memory st) slot X
      /\ (pointer_sized bld X -> target_slot st' i = X)
      /\ (forall x, x < slot \/ slot + sizeof_ptr bld <= x ->
          memory st' x = memory st x)
      /\ original_vtable st' = original_vtable st
      /\ snapshot_at st' i = snapshot_at st i).
Proof.
  split.
  - destruct (run_frozen ops st) as (Ho & Hs & _).
    repeat split; try assumption.
    intros i _. unfold snapshot_at. now rewrite Ho.
  - intros Hres Hok i slot X st'. subst i slot X st'.
    simpl in *. unfold HookInternal in *.
    rewrite GetTargetVirtualAddress_eq in *.
    cbn [fst snd target_size set_target_cache] in *.
    apply N.ltb_lt in Hres. rewrite Hres in *.
    destruct (negb _); [discriminate|].
    destruct (GetSubstituteVirtualAddress_eq
                (set_target_cache st (resolved_cache st (Method r))) s)
      as [c Hc].
    rewrite Hc in *. rewrite resolve_substitute_set_target_cache in *.
    cbn [substitute_size set_substitute_cache set_target_cache] in *.
    destruct (substitute_size st <=? index (resolve_substitute st s));
      [discriminate|].
    unfold target_slot, snapshot_at.
    cbn [fst snd memory protections hooks target_cache substitute_cache
         ProtectMemory set_memory set_protections set_target_cache
         set_substitute_cache target_vtable original_vtable].
    repeat split.
    + intros Hptr. unfold vtable_at. now apply load_ptr_store_ptr.
    + intros x Hx. now apply store_ptr_outside.
Qed.

(** ** Initialize *)

Lemma copy_slots_more_fuel (k : nat) :
  forall (m : Memory) (vtable : N) (original res : list N) (j : nat),
    copy_slots k m vtable original = Some res -> (k <= j)%nat ->
    copy_slots j m vtable original = Some res.
Proof.
  induction k as [|k IH]; intros m vtable original res j Hk Hj;
    [discriminate|].
  destruct j as [|j]; [lia|]. simpl in *.
  destruct (_ && _); [|assumption].
  apply IH; [assumption | lia].
Qed.

Lemma copy_slots_total (m : Memory) :
  forall (d : nat) (vtable : N) (original : list N),
    (N.to_nat (vector_max_size - N.of_nat (length original)) <= d)%nat ->
    exists res, copy_slots (S d) m vtable original = Some res.
Proof.
  induction d as [|d IH]; intros vtable original Hd.
  - simpl. destruct (N.ltb_spec (N.of_nat (length original)) vector_max_size);
      [lia|]. simpl. eauto.
  - cbn [copy_slots].
    destruct (N.ltb_spec (N.of_nat (length original)) vector_max_size)
      as [Hlt|Hge]; [|simpl; eauto].
    destruct (negb _); [|simpl; eauto]. cbn [andb].
    apply IH. rewrite length_app. simpl. lia.
Qed.

Lemma count_slots_more_fuel (k : nat) :
  forall (m : Memory) (vtable size res : N) (j : nat),
    count_slots k m vtable size = Some res -> (k <= j)%nat ->
    count_slots j m vtable size = Some res.
Proof.
  induction k as [|k IH]; intros m vtable size res j Hk Hj; [discriminate|].
  destruct j as [|j]; [lia|]. simpl in *.
  destruct (negb _); [|assumption].
  apply IH; [assumption | lia].
Qed.

Lemma count_slots_total (m : Memory) (vtable n : N) :
  vtable_at bld m vtable n = 0 ->
  forall (d : nat) (size : N),
    size <= n -> (N.to_nat (n - size) <= d)%nat ->
    exists res, count_slots (S d) m vtable size = Some res.
Proof.
  intros Hnull. induction d as [|d IH]; intros size Hle Hd.
  - assert (size = n) as -> by lia. simpl. rewrite Hnull. simpl. eauto.
  - cbn [count_slots].
    destruct (N.eqb_spec (vtable_at bld m vtable size) 0) as [Hz|Hnz];
      simpl; [eauto|].
    apply IH; [|lia].
    destruct (N.eq_dec size n) as [->|]; [contradiction | lia].
Qed.

Lemma table_valid_test (m : Memory) (instance : N) :
  (GetVirtualTable m instance =? 0)
  || negb (IsExecutableAddress (load_ptr bld m (GetVirtualTable m instance)))
  = false
  <-> table_valid m instance.
Proof.
  unfold table_valid. rewrite orb_false_iff, negb_false_iff, N.eqb_neq.
  reflexivity.
Qed.

Lemma Initialize_again (fuel : nat) st (instance substitute : N) :
  target_vtable st <> 0 ->
  Initialize fuel st instance substitute = Some (false, st).
Proof.
  intros H. unfold Initialize. apply N.eqb_neq in H. now rewrite H.
Qed.

Lemma Initialize_invalid (fuel : nat) st (instance substitute : N) :
  target_vtable st = 0 ->
  ~ table_valid (memory st) instance ->
  Initialize fuel st instance substitute = Some (false, st).
Proof.
  intros Hnull Hinvalid. unfold Initialize.
  rewrite Hnull. cbn [N.eqb negb memory target_vtable set_target_vtable].
  destruct (_ || _) eqn:Htest.
  - rewrite <- Hnull at 1. destruct st; reflexivity.
  - apply table_valid_test in Htest. contradiction.
Qed.

Lemma Initialize_true (fuel : nat) st st' (instance substitute : N) :
  Initialize fuel st instance substitute = Some (true, st') ->
  target_vtable st = 0
  /\ table_valid (memory st) instance
  /\ target_vtable st' = GetVirtualTable (memory st) instance
  /\ memory st' = memory st
  /\ hooks st' = hooks st
  /\ target_size st' = N.of_nat (length (original_vtable st')).
Proof.
  unfold Initialize.
  destruct (N.eqb_spec (target_vtable st) 0) as [Hnull|]; [|discriminate].
  cbn [negb memory target_vtable set_target_vtable original_vtable].
  destruct (_ || _) eqn:Htest; [discriminate|].
  apply table_valid_test in Htest.
  destruct (copy_slots _ _ _ _) as [original|]; [|discriminate].
  cbn [memory set_original_vtable set_target_size set_substitute_vtable
       set_target_vtable substitute_vtable substitute_size original_vtable].
  destruct (count_slots _ _ _ _) as [size|]; [|discriminate].
  intros [= <-]. destruct Htest. now repeat split.
Qed.

Lemma Initialize_valid st (instance substitute : N) :
  target_vtable st = 0 ->
  table_valid (memory st) instance ->
  null_terminated (memory st) (GetVirtualTable (memory st) substitute)
                  (substitute_size st) ->
  exists fuel0 st',
    forall fuel, (fuel0 <= fuel)%nat ->
      Initialize fuel st instance substitute = Some (true, st').
Proof.
  intros Hnull Hvalid (n & Hle & Hn).
  destruct (copy_slots_total (memory st)
              (N.to_nat (vector_max_size - N.of_nat (length (original_vtable st))))
              (GetVirtualTable (memory st) instance) (original_vtable st)
              (Nat.le_refl _)) as [original Hcopy].
  destruct (count_slots_total (memory st)
              (GetVirtualTable (memory st) substitute) n Hn
              (N.to_nat (n - substitute_size st)) (substitute_size st)
              Hle (Nat.le_refl _)) as [size Hcount].
  eexists (S (N.to_nat (vector_max_size - N.of_nat (length (original_vtable st))))
           + S (N.to_nat (n - substitute_size st)))%nat.
  eexists. intros fuel Hfuel. unfold Initialize.
  rewrite Hnull. cbn [N.eqb negb memory target_vtable set_target_vtable
                      original_vtable].
  apply table_valid_test in Hvalid. rewrite Hvalid.
  rewrite (copy_slots_more_fuel _ _ _ _ _ fuel Hcopy) by lia.
  cbn [memory set_original_vtable set_target_size set_substitute_vtable
       set_target_vtable substitute_vtable substitute_size original_vtable].
  rewrite (count_slots_more_fuel _ _ _ _ _ fuel Hcount) by lia.
  reflexivity.
Qed.

(** C6.  On a registry no [Initialize] has succeeded on
    ([target_vtable] null), [Initialize] fails, changing nothing, when
    the located target table is null or its first entry fails the
    executability probe; whenever it returns, it returns true exactly
    when the table is non-null and the probe passes; and for such a
    table it does return, true, as soon as the walk of the
    null-terminated substitute table is given enough iterations.  Once
    it has succeeded, every later [Initialize], after any sequence of the
    other operations, returns false and leaves the registry as it found
    it. *)
Theorem Initialize_succeeds_once (fuel : nat) st (instance substitute : N) :
  target_vtable st = 0 ->
  (~ table_valid (memory st) instance ->
   Initialize fuel st instance substitute = Some (false, st))
  /\ (forall b st',
        Initialize fuel st instance substitute = Some (b, st') ->
        (b = true <-> table_valid (memory st) instance))
  /\ (table_valid (memory st) instance ->
      null_terminated (memory st) (GetVirtualTable (memory st) substitute)
                      (substitute_size st) ->
      exists fuel0 st',
        forall k, (fuel0 <= k)%nat ->
          Initialize k st instance substitute = Some (true, st'))
  /\ (forall st', Initialize fuel st instance substitute = Some (true, st') ->
      forall (ops : list Op) (fuel' : nat) (instance' substitute' : N),
        Initialize fuel' (run st' ops) instance' substitute'
        = Some (false, run st' ops)).
Proof.
  intros Hnull. split; [|split; [|split]].
  - now apply Initialize_invalid.
  - intros [|] st' Hinit.
    + apply Initialize_true in Hinit as (_ & Hvalid & _). tauto.
    + split; [discriminate|]. intros Hvalid. exfalso.
      unfold Initialize in Hinit. rewrite Hnull in Hinit.
      cbn [N.eqb negb memory target_vtable set_target_vtable
           original_vtable] in Hinit.
      apply table_valid_test in Hvalid. rewrite Hvalid in Hinit.
      destruct (copy_slots _ _ _ _); [|discriminate].
      destruct (count_slots _ _ _ _); discriminate.
  - now apply Initialize_valid.
  - intros st' Hok ops fuel' instance' substitute'.
    apply Initialize_again.
    destruct (run_frozen ops st') as (_ & _ & Hvt & _). rewrite Hvt.
    apply Initialize_true in Hok as (_ & [Hvalid _] & -> & _).
    exact Hvalid.
Qed.

(** C10.  When [Initialize] fails because the located target table is
    null or the probe on its first entry fails, [target_vtable] is null
    again on return and no other member of the registry has changed; the
    registry is still uninitialised, and a later [Initialize] with a
    valid target succeeds. *)
Theorem Initialize_failure_changes_nothing
        (fuel : nat) st (instance substitute : N) :
  target_vtable st = 0 ->
  GetVirtualTable (memory st) instance = 0
  \/ IsExecutableAddress
       (load_ptr bld (memory st) (GetVirtualTable (memory st) instance))
     = false ->
  exists st',
    Initialize fuel st instance substitute = Some (false, st')
    /\ target_vtable st' = 0
    /\ st' = st
    /\ forall (instance2 substitute2 : N),
         table_valid (memory st') instance2 ->
         null_terminated (memory st')
           (GetVirtualTable (memory st') substitute2) (substitute_size st') ->
         exists fuel2 st2,
           Initialize fuel2 st' instance2 substitute2 = Some (true, st2).
Proof.
  intros Hnull Hbad. exists st. repeat split; try assumption.
  - apply Initialize_invalid; [assumption|].
    intros [Hvt Hexec]. destruct Hbad; congruence.
  - intros instance2 substitute2 Hvalid Hterm.
    destruct (Initialize_valid st instance2 substitute2 Hnull Hvalid Hterm)
      as (fuel0 & st2 & Hinit).
    exists fuel0, st2. now apply Hinit.
Qed.
(** ** What [GetVirtualAddress] returns *)

Lemma scan_slots_bound (m : Memory) (vtable wanted : N) (n : nat) :
  forall (from found : N),
    scan_slots bld m vtable wanted n from = Some found ->
    from <= found < from + N.of_nat n
    /\ vtable_at bld m vtable found = wanted.
Proof.
  induction n as [|k IH]; intros from found H; [discriminate|].
  cbn [scan_slots] in H.
  destruct (N.eqb_spec (vtable_at bld m vtable from) wanted) as [Heq|_].
  - injection H as <-. split; [lia | exact Heq].
  - apply IH in H. split; [lia | apply H].
Qed.

(** [GetVirtualAddress] answers with a slot of the table or with
    [Member( )]. *)
Lemma GetVirtualAddress_found_or_default (m : Memory) (vtable size : N) r :
  index (GetVirtualAddress m vtable size r) < size
  \/ GetVirtualAddress m vtable size r = Member_default.
Proof.
  unfold GetVirtualAddress.
  destruct (_ || _); [now right|].
  destruct (msc_ver bld).
  - destruct (_ && _).
    + match goal with
      | |- context [if size <=? ?x then _ else _] =>
          destruct (N.leb_spec size x)
      end; [now right | now left].
    + destruct (scan_slots _ _ _ _ _ _) as [found|] eqn:Hscan; [|now right].
      left. apply scan_slots_bound in Hscan. simpl. lia.
  - destruct (N.leb_spec size ((ref_ptr r - 1) / sizeof_ptr bld)).
    + destruct (scan_slots _ _ _ _ _ _) as [found|] eqn:Hscan; [|now right].
      left. apply scan_slots_bound in Hscan. simpl. lia.
    + now left.
Qed.

(** ** The registry invariant *)

Lemma GetVirtualAddressInternal_sound m cache vtable size r :
  cache_sound cache size ->
  cache_sound (snd (GetVirtualAddressInternal m cache vtable size r)) size.
Proof.
  intros Hsound. unfold GetVirtualAddressInternal.
  destruct (cache !! _) as [found|]; [exact Hsound|].
  destruct (N.ltb_spec (index (GetVirtualAddress m vtable size r)) size)
    as [Hlt|_]; [|exact Hsound].
  intros k v. simpl. rewrite lookup_insert.
  destruct (decide (GetAddress bld m r = k)) as [_|_].
  - intros [= <-]. exact Hlt.
  - apply Hsound.
Qed.

Lemma GetSubstituteVirtualAddress_sound st s :
  cache_sound (substitute_cache st) (substitute_size st) ->
  cache_sound (substitute_cache (snd (GetSubstituteVirtualAddress st s)))
              (substitute_size st).
Proof.
  intros Hsound. unfold GetSubstituteVirtualAddress.
  pose proof (GetVirtualAddressInternal_sound (memory st) _
                (substitute_vtable st) _ s Hsound) as H.
  now destruct (GetVirtualAddressInternal _ _ _ _ _).
Qed.

Lemma registry_ok_initial (m : Memory) : registry_ok (initial_state m).
Proof.
  split; [|split; [|split]].
  - intros k v H. simpl in H. rewrite lookup_empty in H. discriminate.
  - intros k v H. simpl in H. rewrite lookup_empty in H. discriminate.
  - reflexivity.
  - intros i. unfold snapshot_at, pointer_sized.
    cbn [original_vtable initial_state]. rewrite lookup_nil.
    apply N.neq_0_lt_0, N.pow_nonzero. lia.
Qed.

Lemma registry_ok_target_cache st o :
  registry_ok st -> registry_ok (set_target_cache st (resolved_cache st o)).
Proof.
  intros (Ht & Hs & Hlen & Hptr).
  split; [|split; [|split]]; try assumption.
  cbn [target_cache target_size set_target_cache].
  destruct o as [f|r]; [exact Ht|].
  now apply GetVirtualAddressInternal_sound.
Qed.


Lemma registry_ok_frame st st' :
  registry_ok st -> frozen st st' ->
  cache_sound (target_cache st') (target_size st) ->
  cache_sound (substitute_cache st') (substitute_size st) ->
  registry_ok st'.
Proof.
  intros (Ht & Hs & Hlen & Hptr) (Ho & Hts & _ & Hss & _) H1 H2.
  unfold registry_ok, snapshot_pointers, snapshot_at in *.
  rewrite Hts, Hss, Ho. now repeat split.
Qed.

Lemma install_ok st a subst :
  registry_ok st -> registry_ok (snd (install st a subst)).
Proof.
  intros Hok. destruct (install_frame st a subst) as (Hf & Ht & Hs & _).
  apply (registry_ok_frame st); [assumption | assumption | |].
  - rewrite Ht. apply Hok.
  - rewrite Hs. apply Hok.
Qed.

Lemma Hook_ok st o s : registry_ok st -> registry_ok (snd (Hook st o s)).
Proof.
  intros Hok. destruct o as [f|r]; simpl.
  - unfold HookInternal_function.
    destruct (f =? 0); [assumption|].
    destruct (hooks st !! f); [assumption|].
    destruct (_ =? 0); [assumption|].
    now apply install_ok.
  - unfold HookInternal. rewrite GetTargetVirtualAddress_eq.
    pose proof (registry_ok_target_cache st (Method r) Hok) as Hok1.
    set (st1 := set_target_cache st _) in *.
    destruct (_ <? _).
    + destruct (negb _); [assumption|].
      pose proof (GetSubstituteVirtualAddress_sound st1 s (proj1 (proj2 Hok1)))
        as Hsub.
      destruct (GetSubstituteVirtualAddress_eq st1 s) as [c Hc].
      rewrite Hc in *. cbn [snd substitute_cache set_substitute_cache] in Hsub.
      destruct Hok1 as (Ht & _ & Hlen & Hptr).
      destruct (_ <=? _); now repeat split.
    + destruct (_ =? 0); [assumption|].
      destruct (hooks st1 !! _); [assumption|].
      destruct (_ =? 0); [assumption|].
      now apply install_ok.
Qed.

Lemma UnHook_ok st o : registry_ok st -> registry_ok (snd (UnHook st o)).
Proof.
  intros Hok. destruct o as [f|r]; simpl.
  - unfold UnHookInternal_function.
    destruct (hooks st !! f); [|assumption].
    destruct Hok as (Ht & Hs & Hlen & Hptr). now repeat split.
  - unfold UnHookInternal.
    destruct (hooks st !! _).
    + destruct Hok as (Ht & Hs & Hlen & Hptr). now repeat split.
    + rewrite GetTargetVirtualAddress_eq.
      pose proof (registry_ok_target_cache st (Method r) Hok) as Hok1.
      destruct (_ <=? _); [assumption|].
      destruct (_ =? _); [assumption|].
      destruct Hok1 as (Ht & Hs & Hlen & Hptr). now repeat split.
Qed.

Lemma IsHooked_ok st o : registry_ok st -> registry_ok (snd (IsHooked st o)).
Proof.
  intros Hok. destruct o as [f|r]; simpl.
  - unfold IsHookedInternal_function. now destruct (hooks st !! f).
  - unfold IsHookedInternal.
    destruct (hooks st !! _); [assumption|].
    rewrite GetTargetVirtualAddress_eq.
    pose proof (registry_ok_target_cache st (Method r) Hok) as Hok1.
    now destruct (_ <=? _).
Qed.

Lemma Call_ok st i o a : registry_ok st -> registry_ok (snd (Call st i o a)).
Proof.
  intros Hok. destruct o as [f|r]; simpl.
  - unfold CallInternal_function. now destruct (_ <=? _).
  - unfold CallInternal. rewrite GetTargetVirtualAddress_eq.
    pose proof (registry_ok_target_cache st (Method r) Hok) as Hok1.
    destruct (_ <=? _).
    + destruct (_ <? _); now destruct (_ <=? _).
    + now destruct (_ <=? _).
Qed.

Lemma run_ok ops : forall st, registry_ok st -> registry_ok (run st ops).
Proof.
  induction ops as [|op ops IH]; intros st Hok; simpl; [assumption|].
  apply IH. destruct op; simpl;
    auto using Hook_ok, UnHook_ok, IsHooked_ok, Call_ok.
Qed.

Lemma copy_slots_pointers (k : nat) :
  forall (m : Memory) (vtable : N) (original res : list N),
    copy_slots k m vtable original = Some res ->
    Forall (pointer_sized bld) original ->
    Forall (pointer_sized bld) res /\ (length original <= length res)%nat.
Proof.
  induction k as [|k IH]; intros m vtable original res H Hall;
    [discriminate|].
  cbn [copy_slots] in H. destruct (_ && _).
  - apply IH in H.
    + rewrite length_app in H. simpl in H. split; [apply H | lia].
    + apply Forall_app. split; [assumption|].
      constructor; [apply load_ptr_pointer_sized | constructor].
  - injection H as <-. now split.
Qed.

Lemma snapshot_pointers_Forall st :
  snapshot_pointers st <-> Forall (pointer_sized bld) (original_vtable st).
Proof.
  unfold snapshot_pointers, snapshot_at. split.
  - intros H. apply Forall_lookup. intros i x Hx.
    specialize (H (N.of_nat i)). rewrite Nat2N.id, Hx in H. exact H.
  - intros H i. destruct (original_vtable st !! N.to_nat i) as [x|] eqn:Hx.
    + simpl. eapply Forall_lookup in H; eauto.
    + simpl. apply N.neq_0_lt_0, N.pow_nonzero. lia.
Qed.

Lemma cache_sound_mono (cache : gmap N Member) (size size' : N) :
  size <= size' -> cache_sound cache size -> cache_sound cache size'.
Proof. intros Hle H k v Hk. specialize (H k v Hk). lia. Qed.

Lemma count_slots_result (k : nat) :
  forall (m : Memory) (vtable size res : N),
    count_slots k m vtable size = Some res ->
    size <= res
    /\ vtable_at bld m vtable res = 0
    /\ forall i, size <= i < res -> vtable_at bld m vtable i <> 0.
Proof.
  induction k as [|k IH]; intros m vtable size res H; [discriminate|].
  cbn [count_slots] in H.
  destruct (N.eqb_spec (vtable_at bld m vtable size) 0) as [Hz|Hnz];
    cbn [negb] in H.
  - injection H as <-. repeat split; [lia | assumption | intros i Hi; lia].
  - apply IH in H as (Hle & Hnull & Hfull).
    repeat split; [lia | assumption |].
    intros i Hi. destruct (N.eq_dec i size) as [->|Hne]; [assumption|].
    apply Hfull. lia.
Qed.

(** What the first loop of [Initialize] appends: the slots of the table
    up to the first null one, in order. *)
Lemma copy_slots_result (k : nat) :
  forall (m : Memory) (vtable : N) (original res : list N),
    copy_slots k m vtable original = Some res ->
    exists extra,
      res = original ++ extra
      /\ forall (j : nat), (j < length extra)%nat ->
           extra !! j = Some (vtable_at bld m vtable (N.of_nat j))
           /\ vtable_at bld m vtable (N.of_nat j) <> 0.
Proof.
  induction k as [|k IH]; intros m vtable original res H; [discriminate|].
  cbn [copy_slots] in H.
  destruct (_ <? _); cbn [andb] in H;
    [|injection H as <-; exists []; split;
      [now rewrite app_nil_r | simpl; intros; lia]].
  destruct (N.eqb_spec (load_ptr bld m vtable) 0) as [Hz|Hnz];
    cbn [negb] in H;
    [injection H as <-; exists []; split;
      [now rewrite app_nil_r | simpl; intros; lia]|].
  apply IH in H as (extra & -> & Hextra).
  exists (load_ptr bld m vtable :: extra). split.
  - now rewrite <- app_assoc.
  - intros [|j] Hj; unfold vtable_at, slot_addr in *.
    + simpl. rewrite N.add_0_r. now split.
    + simpl in Hj. specialize (Hextra j ltac:(lia)).
      replace (vtable + N.of_nat (S j) * sizeof_ptr bld)
        with (vtable + sizeof_ptr bld + N.of_nat j * sizeof_ptr bld) by lia.
      exact Hextra.
Qed.

(** Right after the one successful [Initialize] the snapshot is the
    table: every slot below [target_size] is non-null and equal to its
    snapshot value. *)
Lemma Initialize_snapshot (fuel : nat) st st' (instance substitute : N) :
  original_vtable st = [] ->
  Initialize fuel st instance substitute = Some (true, st') ->
  forall i, i < target_size st' ->
    snapshot_at st' i = target_slot st' i /\ snapshot_at st' i <> 0.
Proof.
  intros Hempty. unfold Initialize.
  destruct (N.eqb_spec (target_vtable st) 0) as [Hnull|_];
    cbn [negb]; [|discriminate].
  cbn [memory target_vtable set_target_vtable original_vtable].
  destruct (_ || _); [discriminate|].
  destruct (copy_slots _ _ _ _) as [original|] eqn:Hcopy; [|discriminate].
  cbn [memory set_original_vtable set_target_size set_substitute_vtable
       set_target_vtable substitute_vtable substitute_size original_vtable].
  destruct (count_slots _ _ _ _) as [size|]; [|discriminate].
  intros [= <-] i.
  unfold snapshot_at, target_slot.
  cbn [memory target_size target_vtable original_vtable set_substitute_size
       set_substitute_vtable set_target_size set_original_vtable
       set_target_vtable].
  intros Hi.
  apply copy_slots_result in Hcopy as (extra & -> & Hextra).
  rewrite Hempty in *. simpl in *.
  destruct (Hextra (N.to_nat i) ltac:(lia)) as [Hget Hnz].
  rewrite N2Nat.id in *. rewrite Hget. simpl. now split.
Qed.

(** A registry that was fine is fine after [Initialize], whatever the
    answer. *)
Lemma Initialize_ok (fuel : nat) st st' (instance substitute : N) (b : bool) :
  registry_ok st ->
  Initialize fuel st instance substitute = Some (b, st') ->
  registry_ok st'.
Proof.
  intros Hok. unfold Initialize.
  destruct (N.eqb_spec (target_vtable st) 0) as [Hnull|_];
    cbn [negb]; [|now intros [= <- <-]].
  cbn [memory target_vtable set_target_vtable original_vtable].
  destruct (_ || _).
  { intros [= <- <-]. destruct Hok as (Ht & Hs & Hlen & Hptr).
    now repeat split. }
  destruct (copy_slots _ _ _ _) as [original|] eqn:Hcopy; [|discriminate].
  cbn [memory set_original_vtable set_target_size set_substitute_vtable
       set_target_vtable substitute_vtable substitute_size original_vtable].
  destruct (count_slots _ _ _ _) as [size|] eqn:Hcount; [|discriminate].
  intros [= <- <-]. destruct Hok as (Ht & Hs & Hlen & Hptr).
  apply snapshot_pointers_Forall in Hptr.
  apply copy_slots_pointers in Hcopy as [Hall Hgrow]; [|assumption].
  split; [|split; [|split]].
  - cbn [target_cache target_size set_substitute_size set_substitute_vtable
         set_target_size set_original_vtable set_target_vtable].
    eapply cache_sound_mono; [|exact Ht]. lia.
  - cbn [substitute_cache substitute_size set_substitute_size].
    eapply cache_sound_mono; [|exact Hs].
    now apply count_slots_result in Hcount.
  - reflexivity.
  - apply snapshot_pointers_Forall. exact Hall.
Qed.

End Properties.

(** * The properties on the concrete image *)

Section Examples.

Import Scenario.

(** C1 (defect).  On a registry that was never initialised, with a
    trampoline hook registered for [Target::g] and a non-null trampoline,
    [Call] does not call through the trampoline: it returns the
    value-initialised result. *)
Theorem Call_skips_trampoline_before_Initialize :
  hook_registered detoured (raw_address detoured (Method Target_g))
  /\ trampoline_of detoured (raw_address detoured (Method Target_g)) = 94208
  /\ target_size detoured = 0
  /\ fst (Call detoured target_instance (Method Target_g) [])
     = ReturnDefault
  /\ fst (Call detoured target_instance (Function 28672) [])
     = ReturnDefault.
Proof.
  repeat split; try (vm_compute; reflexivity).
  exists 94208. vm_compute. reflexivity.
Qed.

(** The same call once [Initialize] has run goes through the
    trampoline. *)
Example Call_uses_trampoline_after_Initialize :
  match Initialize 8 detoured target_instance substitute_instance with
  | Some (true, st) =>
      callee_of (fst (Call st target_instance (Method Target_g) []))
      = Some 94208
  | _ => False
  end.
Proof. vm_compute. reflexivity. Qed.

(** C2 on the image: the engine refuses to detour the function at
    0x9000; [Hook] returns false and the hook map holds an entry for
    0x9000 all the same. *)
Lemma Hook_failed_install_leaves_entry_witness :
  fst (Hook fresh (Method Target_far) Substitute_g) = false
  /\ is_Some (hooks (snd (Hook fresh (Method Target_far) Substitute_g))
               !! raw_address fresh (Method Target_far)).
Proof.
  apply (Hook_failed_install_leaves_entry fresh (Method Target_far)
           Substitute_g).
  - simpl. lia.
  - vm_compute. discriminate.
  - vm_compute. reflexivity.
  - vm_compute. discriminate.
  - left. vm_compute. reflexivity.
Defined.

(** C3, as amended, on the image: slot 1 is hooked and its reference
    cached; hooking it again fails and changes nothing. *)
Lemma Hook_on_hooked_member_fails_witness :
  Hook hooked (Method Target_f1) Substitute_f1 = (false, hooked).
Proof.
  apply (Hook_on_hooked_member_fails hooked (Method Target_f1)
           Substitute_f1).
  - left. split.
    + vm_compute. reflexivity.
    + intros H. vm_compute in H. discriminate.
  - left. eexists. vm_compute. reflexivity.
Defined.

(** C5 on the image: slot 1 is reported hooked once [Hook] has
    replaced it, and neither the untouched slot nor the plain member
    is. *)
Example IsHooked_on_image :
  fst (IsHooked hooked (Method Target_f1)) = true
  /\ fst (IsHooked hooked (Method Target_f0)) = false
  /\ fst (IsHooked ready (Method Target_f1)) = false
  /\ fst (IsHooked ready (Method Target_g)) = false
  /\ fst (IsHooked detoured (Method Target_g)) = true.
Proof. repeat split; vm_compute; reflexivity. Qed.

(** C4, as stated, fails.  Right after [Initialize], [UnHook] of the
    never hooked [&Target::f1] returns false, and the target cache has
    gained the entry of the reference: the registry is not unchanged. *)
Lemma UnHook_of_unhooked_slot_memoises :
  hooks ready !! raw_address ready (Method Target_f1) = None
  /\ resolves_to_slot ready (Method Target_f1)
  /\ target_slot ready 1 = snapshot_at ready 1
  /\ index (resolve_target ready (Method Target_f1)) = 1
  /\ fst (UnHook ready (Method Target_f1)) = false
  /\ target_cache ready !! 24576 = None
  /\ target_cache (snd (UnHook ready (Method Target_f1))) !! 24576
     = Some {| address := 16640; index := 1 |}
  /\ snd (UnHook ready (Method Target_f1)) <> ready.
Proof.
  repeat split; try (vm_compute; reflexivity).
  intros H.
  apply (f_equal (fun st => target_cache st !! 24576)) in H.
  vm_compute in H. discriminate.
Qed.

(** C4, as amended, on the image: unhooking the hooked slot 1 restores
    the snapshot value, and unhooking the plain member [g], hooked
    nowhere and resolving to no slot, fails and changes nothing. *)
Lemma UnHook_cases_witness :
  fst (UnHook hooked (Method Target_f1)) = true
  /\ target_slot (snd (UnHook hooked (Method Target_f1)))
       (index (resolve_target hooked (Method Target_f1)))
     = snapshot_at hooked (index (resolve_target hooked (Method Target_f1)))
  /\ UnHook ready (Method Target_g) = (false, ready).
Proof.
  destruct (UnHook_cases hooked (Method Target_f1)) as (_ & _ & _ & Hrestore).
  destruct (UnHook_cases ready (Method Target_g)) as (_ & Hmiss & _).
  destruct Hrestore as (Hok & _ & _ & Hslot & _).
  - vm_compute. reflexivity.
  - vm_compute. reflexivity.
  - intros H. vm_compute in H. discriminate.
  - split; [|split].
    + exact Hok.
    + apply Hslot. vm_compute. reflexivity.
    + apply Hmiss.
      * vm_compute. reflexivity.
      * intros H. vm_compute in H. discriminate.
Defined.

(** The cached resolver on the image: once [&Target::f1] has resolved,
    resolving it with no table at all still answers slot 1; the plain
    member [g] leaves no entry behind. *)
Lemma cached_resolver_memoises_successes_only_witness :
  let first := GetVirtualAddressInternal (P := msvc64) image ∅ 8192 2 Target_f1 in
  GetVirtualAddressInternal (P := msvc64) image (snd first) 0 0 Target_f1
  = (fst first, snd first)
  /\ snd (GetVirtualAddressInternal (P := msvc64) image ∅ 8192 2 Target_g)
       !! GetAddress MSVC_Win64 image Target_g = None.
Proof.
  intros first. subst first.
  destruct (cached_resolver_memoises_successes_only (P := msvc64)
              image ∅ 8192 2 Target_f1) as (_ & _ & _ & Hhit & _).
  destruct (cached_resolver_memoises_successes_only (P := msvc64)
              image ∅ 8192 2 Target_g) as (_ & _ & _ & _ & Hmiss).
  split.
  - apply Hhit; [vm_compute; reflexivity | reflexivity].
  - apply Hmiss.
    + intros k v H. rewrite lookup_empty in H. discriminate.
    + intros H. vm_compute in H. discriminate.
Defined.

(** C8 on the image: a run of operations keeps the snapshot, and
    hooking slot 1 puts the substitute's address in the live slot while
    the snapshot keeps the original. *)
Lemma snapshot_is_never_mutated_witness :
  let ops := [OpHook (Method Target_f0) Substitute_f1;
              OpCall target_instance (Method Target_f0) [];
              OpUnHook (Method Target_f1);
              OpIsHooked (Function 28672)] in
  let st' := snd (Hook ready (Method Target_f1) Substitute_f1) in
  original_vtable (run ready ops) = original_vtable ready
  /\ target_slot st' (index (resolve_target ready (Method Target_f1)))
     = address (resolve_substitute ready Substitute_f1)
  /\ snapshot_at st' (index (resolve_target ready (Method Target_f1)))
     = snapshot_at ready (index (resolve_target ready (Method Target_f1))).
Proof.
  intros ops st'. subst st'.
  destruct (snapshot_is_never_mutated ready ops Target_f1 Substitute_f1)
    as ((Hsnap & _) & Hhook).
  destruct Hhook as (_ & Hslot & _ & _ & Hkeep).
  - vm_compute. reflexivity.
  - vm_compute. reflexivity.
  - split; [|split].
    + exact Hsnap.
    + apply Hslot. vm_compute. reflexivity.
    + exact Hkeep.
Defined.

(** C9 on the image: with the trampoline hook of [g] registered and no
    [Initialize], both overloads of [Call] return the default. *)
Lemma Call_before_Initialize_returns_default_witness :
  fst (Call detoured target_instance (Function 28672) [7; 9]) = ReturnDefault
  /\ fst (Call detoured target_instance (Method Target_g) []) = ReturnDefault.
Proof.
  split; apply Call_before_Initialize_returns_default; reflexivity.
Defined.

(** C6 on the image: an object with a null first word is turned down, the
    [Target] object is accepted, and [Initialize] on the initialised
    registry fails without a change. *)
Lemma Initialize_succeeds_once_witness :
  Initialize 8 fresh plain_instance substitute_instance = Some (false, fresh)
  /\ (exists fuel0 st',
        forall k, (fuel0 <= k)%nat ->
          Initialize k fresh target_instance substitute_instance
          = Some (true, st'))
  /\ Initialize 3 (run ready [OpHook (Method Target_f1) Substitute_f1])
                target_instance substitute_instance
     = Some (false, run ready [OpHook (Method Target_f1) Substitute_f1]).
Proof.
  destruct (Initialize_succeeds_once 8 fresh plain_instance
              substitute_instance eq_refl) as (Hinvalid & _).
  destruct (Initialize_succeeds_once 8 fresh target_instance
              substitute_instance eq_refl) as (_ & _ & Hvalid & Hagain).
  split; [|split].
  - apply Hinvalid. intros [H _]. vm_compute in H. now apply H.
  - apply Hvalid.
    + split; [intros H; vm_compute in H; discriminate
             | vm_compute; reflexivity].
    + exists 2. split; [vm_compute; discriminate | vm_compute; reflexivity].
  - apply (Hagain ready). vm_compute. reflexivity.
Defined.

(** C10 on the image: the failed [Initialize] on the null-table object
    returns the registry it was given, and [Initialize] on the [Target]
    object succeeds afterwards. *)
Lemma Initialize_failure_changes_nothing_witness :
  exists st',
    Initialize 8 fresh plain_instance substitute_instance = Some (false, st')
    /\ st' = fresh
    /\ exists fuel2 st2,
         Initialize fuel2 st' target_instance substitute_instance
         = Some (true, st2).
Proof.
  destruct (Initialize_failure_changes_nothing 8 fresh plain_instance
              substitute_instance eq_refl) as (st' & Hfail & _ & Hsame & Hlater).
  - left. vm_compute. reflexivity.
  - exists st'. split; [exact Hfail|]. split; [exact Hsame|].
    apply Hlater; subst st'.
    + split; [intros H; vm_compute in H; discriminate
             | vm_compute; reflexivity].
    + exists 2. split; [vm_compute; discriminate | vm_compute; reflexivity].
Defined.
End Examples.

(** * Further properties *)

(** ** Memory: what a load depends on, what a store sets *)

Lemma load_le_ext (n : nat) :
  forall (m m' : Memory) (a : N),
    (forall x, a <= x < a + N.of_nat n -> load8 m' x = load8 m x) ->
    load_le n m' a = load_le n m a.
Proof.
  induction n as [|k IH]; intros m m' a H; [reflexivity|].
  cbn [load_le]. rewrite (H a) by lia.
  rewrite (IH m m' (a + 1)); [reflexivity|].
  intros x Hx. apply H. lia.
Qed.

Lemma load8_store_le_inside (n : nat) :
  forall (m : Memory) (a v x : N),
    a <= x < a + N.of_nat n ->
    load8 (store_le n m a v) x = (v / 256 ^ (x - a)) mod 256.
Proof.
  induction n as [|k IH]; intros m a v x Hx; [lia|].
  cbn [store_le].
  destruct (N.eq_dec x a) as [->|Hne].
  - rewrite load8_store_le_outside by lia.
    unfold load8, store8. rewrite N.eqb_refl, N.sub_diag, N.pow_0_r, N.div_1_r.
    apply N.Div0.mod_mod.
  - rewrite IH by lia.
    replace (x - a) with (N.succ (x - (a + 1))) by lia.
    rewrite N.pow_succ_r', N.Div0.div_div. reflexivity.
Qed.

Lemma load8_lt (m : Memory) (a : N) : load8 m a < 256.
Proof. unfold load8. apply N.mod_lt. lia. Qed.

(** Storing the value a location holds changes no byte. *)
Lemma store_le_same (n : nat) :
  forall (m : Memory) (a x : N),
    load8 (store_le n m a (load_le n m a)) x = load8 m x.
Proof.
  induction n as [|k IH]; intros m a x; [reflexivity|].
  cbn [store_le load_le].
  pose proof (load8_lt m a) as Hlt.
  replace ((load8 m a + 256 * load_le k m (a + 1)) / 256)
    with (load_le k m (a + 1))
    by (rewrite N.mul_comm, N.div_add, (N.div_small (load8 m a)) by lia; lia).
  set (m1 := store8 m a (load8 m a + 256 * load_le k m (a + 1))).
  assert (Hm1 : forall y, load8 m1 y = load8 m y).
  { intros y. unfold m1, load8, store8.
    destruct (N.eqb_spec y a) as [->|_]; [|reflexivity].
    rewrite N.Div0.mod_mod.
    rewrite (N.mul_comm 256), N.Div0.mod_add.
    apply N.Div0.mod_mod. }
  rewrite <- (load_le_ext k m m1 (a + 1)) by (intros; apply Hm1).
  rewrite IH. apply Hm1.
Qed.

Lemma slots_apart (b : Build) (vtable i j x : N) :
  i <> j ->
  slot_addr b vtable j <= x < slot_addr b vtable j + sizeof_ptr b ->
  x < slot_addr b vtable i \/ slot_addr b vtable i + sizeof_ptr b <= x.
Proof.
  unfold slot_addr. intros Hne Hx.
  assert (0 < sizeof_ptr b) by (destruct b; cbv; reflexivity).
  destruct (N.lt_ge_cases j i); [left | right]; nia.
Qed.

(** A store into one slot is not seen through another. *)
Lemma vtable_at_store_other (b : Build) (m : Memory) (vtable i j v : N) :
  i <> j ->
  vtable_at b (store_ptr b m (slot_addr b vtable i) v) vtable j
  = vtable_at b m vtable j.
Proof.
  intros Hne. unfold vtable_at, load_ptr, store_ptr.
  apply load_le_ext. intros x Hx.
  apply load8_store_le_outside.
  apply (slots_apart b vtable i j x Hne Hx).
Qed.

(** ** GetAddress *)

Lemma spill_byte (b : Build) (m : Memory) r (x : N) :
  ref_home r <= x < ref_home r + 2 * sizeof_ptr b ->
  load8 (spill b m r) x
  = if x <? ref_home r + sizeof_ptr b
    then (ref_ptr r / 256 ^ (x - ref_home r)) mod 256
    else (ref_adj r / 256 ^ (x - (ref_home r + sizeof_ptr b))) mod 256.
Proof.
  intros Hx. unfold spill, store_ptr.
  fold (sizeof_ptr b).
  destruct (N.ltb_spec x (ref_home r + sizeof_ptr b)) as [Hlt|Hge].
  - rewrite load8_store_le_outside by (fold (sizeof_ptr b); lia).
    apply load8_store_le_inside. fold (sizeof_ptr b). lia.
  - apply load8_store_le_inside. fold (sizeof_ptr b). lia.
Qed.

Lemma sizeof_ptr_ge_4 (b : Build) : 4 <= sizeof_ptr b.
Proof. destruct b; cbv; discriminate. Qed.

(** X1.  [GetAddress] looks at five bytes at most: under MSVC the byte
    the reference points at and the four after it, elsewhere bytes of its
    own parameter.  Two memories that agree on the five bytes at the
    referenced code give the same address, and outside MSVC the memory
    does not matter at all. *)
Theorem GetAddress_reads_five_bytes (b : Build) (m m' : Memory)
        (r : MethodRef) :
  (msc_ver b = true ->
   forall x, ref_ptr r <= x < ref_ptr r + 5 -> load8 m' x = load8 m x) ->
  GetAddress b m' r = GetAddress b m r.
Proof.
  intros Hsame. unfold GetAddress.
  pose proof (sizeof_ptr_ge_4 b) as Hsz.
  destruct (msc_ver b) eqn:Hmsc.
  - specialize (Hsame eq_refl).
    rewrite (Hsame (ref_ptr r)) by lia.
    unfold load_i32, load_u32.
    rewrite (load_le_ext 4 m m' (ref_ptr r + 1)); [reflexivity|].
    intros x Hx. apply Hsame. simpl in Hx. lia.
  - rewrite !spill_byte by lia.
    unfold load_i32, load_u32.
    rewrite (load_le_ext 4 (spill b m r) (spill b m' r) (ref_home r + 1));
      [reflexivity|].
    intros x Hx. simpl in Hx. rewrite !spill_byte by lia. reflexivity.
Qed.

(** Outside MSVC [GetAddress] starts from [pmethod] itself, the address
    of its by-value parameter, and inspects the bytes of the pointer to
    member stored there: unless the low byte of the pointer is 0xE9, what
    it returns is the address of that copy. *)
Lemma GetAddress_outside_MSVC (b : Build) (m : Memory) (r : MethodRef) :
  msc_ver b = false ->
  ref_ptr r mod 256 <> 233 ->
  GetAddress b m r = ref_home r.
Proof.
  intros Hmsc Hlow. unfold GetAddress. rewrite Hmsc.
  pose proof (sizeof_ptr_ge_4 b) as Hsz.
  rewrite spill_byte by lia.
  destruct (N.ltb_spec (ref_home r) (ref_home r + sizeof_ptr b)); [|lia].
  rewrite N.sub_diag, N.pow_0_r, N.div_1_r.
  apply N.eqb_neq in Hlow. now rewrite Hlow.
Qed.

Section Properties2.

Context {P : Platform}.

Local Abbreviation bld := (@build P).

Implicit Types (st : @State P) (o : OriginalRef) (r s : MethodRef).

(** ** GetVirtualAddress *)

Lemma scan_slots_none (m : Memory) (vtable wanted : N) (n : nat) :
  forall (from : N),
    scan_slots bld m vtable wanted n from = None ->
    forall j, from <= j < from + N.of_nat n ->
      vtable_at bld m vtable j <> wanted.
Proof.
  induction n as [|k IH]; intros from H j Hj; [lia|].
  cbn [scan_slots] in H.
  destruct (N.eqb_spec (vtable_at bld m vtable from) wanted) as [|Hne];
    [discriminate|].
  destruct (N.eq_dec j from) as [->|]; [assumption|].
  apply (IH (from + 1)); [assumption | lia].
Qed.

Lemma scan_slots_least (m : Memory) (vtable wanted : N) (n : nat) :
  forall (from found : N),
    scan_slots bld m vtable wanted n from = Some found ->
    forall j, from <= j < found -> vtable_at bld m vtable j <> wanted.
Proof.
  induction n as [|k IH]; intros from found H j Hj; [discriminate|].
  cbn [scan_slots] in H.
  destruct (N.eqb_spec (vtable_at bld m vtable from) wanted) as [|Hne].
  - injection H as <-. lia.
  - destruct (N.eq_dec j from) as [->|]; [assumption|].
    apply (IH (from + 1) found); [assumption | lia].
Qed.

(** X2.  The linear scan of [GetVirtualAddress] answers with the first
    slot of the table that holds the wanted address, and with nothing
    exactly when no slot below [size] holds it. *)
Theorem scan_finds_first_matching_slot
        (m : Memory) (vtable wanted size : N) :
  match scan_slots bld m vtable wanted (N.to_nat size) 0 with
  | Some found =>
      found < size
      /\ vtable_at bld m vtable found = wanted
      /\ forall j, j < found -> vtable_at bld m vtable j <> wanted
  | None => forall j, j < size -> vtable_at bld m vtable j <> wanted
  end.
Proof.
  destruct (scan_slots _ _ _ _ _ _) as [found|] eqn:Hscan.
  - pose proof (scan_slots_bound _ _ _ _ _ _ Hscan) as [Hb Hv].
    split; [lia|]. split; [exact Hv|].
    intros j Hj. apply (scan_slots_least _ _ _ _ _ _ Hscan). lia.
  - intros j Hj. apply (scan_slots_none _ _ _ _ _ Hscan). lia.
Qed.

(** X3.  [GetVirtualAddress] returns [Member( )] for a null table, an
    empty table or a null reference; and whatever the inputs, what it
    returns is either [Member( )] or a slot of the table, [index < size],
    together with what that slot holds at the time. *)
Theorem GetVirtualAddress_is_default_or_live_slot
        (m : Memory) (vtable size : N) r :
  (vtable = 0 \/ size = 0 \/ ref_ptr r = 0 ->
   GetVirtualAddress m vtable size r = Member_default)
  /\ (GetVirtualAddress m vtable size r = Member_default
      \/ (index (GetVirtualAddress m vtable size r) < size
          /\ address (GetVirtualAddress m vtable size r)
             = vtable_at bld m vtable
                 (index (GetVirtualAddress m vtable size r)))).
Proof.
  split.
  - intros Hnull. unfold GetVirtualAddress.
    destruct Hnull as [->|[->|Hr]]; [reflexivity | |].
    + now rewrite orb_true_r.
    + rewrite Hr. now rewrite !orb_true_r.
  - unfold GetVirtualAddress.
    destruct (_ || _); [now left|].
    destruct (msc_ver bld).
    + destruct (_ && _).
      * match goal with
        | |- context [if size <=? ?x then _ else _] =>
            destruct (N.leb_spec size x)
        end; [now left | right; now split].
      * destruct (scan_slots _ _ _ _ _ _) as [found|] eqn:Hscan; [|now left].
        right. apply scan_slots_bound in Hscan as [Hb Hv]. simpl.
        split; [lia | now rewrite Hv].
    + destruct (N.leb_spec size ((ref_ptr r - 1) / sizeof_ptr bld)).
      * destruct (scan_slots _ _ _ _ _ _) as [found|] eqn:Hscan; [|now left].
        right. apply scan_slots_bound in Hscan as [Hb Hv]. simpl.
        split; [lia | now rewrite Hv].
      * right. now split.
Qed.

End Properties2.

(** ** The key of the resolution cache *)

Section ResolverKey.

Context {P : Platform}.

Local Abbreviation bld := (@build P).

Implicit Types (st : @State P) (o : OriginalRef) (r s : MethodRef).

(** Under MSVC the key is read through the pointer to member: two copies
    of one reference, wherever they are, resolve alike and share their
    cache entry. *)
Lemma resolver_key_under_MSVC
      (m : Memory) (cache : gmap N Member) (vtable size : N) r1 r2 :
  msc_ver bld = true ->
  ref_ptr r2 = ref_ptr r1 ->
  GetAddress bld m r2 = GetAddress bld m r1
  /\ GetVirtualAddressInternal m cache vtable size r2
     = GetVirtualAddressInternal m cache vtable size r1.
Proof.
  intros Hmsc Hptr.
  assert (Hkey : GetAddress bld m r2 = GetAddress bld m r1)
    by (unfold GetAddress; now rewrite Hmsc, Hptr).
  split; [exact Hkey|].
  unfold GetVirtualAddressInternal, GetVirtualAddress.
  now rewrite Hkey, Hmsc, Hptr.
Qed.

(** Outside MSVC [GetVirtualAddress] goes by the value of the pointer
    (line 169 dereferences [pmethod]). *)
Lemma GetVirtualAddress_by_value (m : Memory) (vtable size : N) r1 r2 :
  msc_ver bld = false ->
  ref_ptr r2 = ref_ptr r1 ->
  GetVirtualAddress m vtable size r2 = GetVirtualAddress m vtable size r1.
Proof.
  intros Hmsc Hptr. unfold GetVirtualAddress. now rewrite Hmsc, Hptr.
Qed.

(** C7 (defect).  Outside MSVC [GetAddress] does not dereference
    [pmethod] (line 102, against lines 98 and 169): the key
    [GetVirtualAddressInternal] files a resolution under is the address
    of the by-value copy of the reference, not the reference.  So for one
    reference taken by value at two places, the second resolution finds
    no entry of the first: it is not served from the cache, it goes
    through [GetVirtualAddress] on whatever the table holds by then, and
    when both resolve the cache ends with two entries for the one
    member. *)
Theorem resolver_key_is_the_parameter_address_outside_MSVC
        (m : Memory) (cache : gmap N Member) (vtable size : N) r1 r2 :
  let first := GetVirtualAddressInternal m cache vtable size r1 in
  let second := GetVirtualAddressInternal m (snd first) vtable size r2 in
  msc_ver bld = false ->
  ref_ptr r2 = ref_ptr r1 ->
  ref_adj r2 = ref_adj r1 ->
  ref_ptr r1 mod 256 <> 233 ->
  ref_home r2 <> ref_home r1 ->
  cache !! ref_home r1 = None ->
  cache !! ref_home r2 = None ->
  GetAddress bld m r1 = ref_home r1
  /\ GetAddress bld m r2 = ref_home r2
  /\ snd first !! GetAddress bld m r2 = None
  /\ (forall m' vtable' size',
        fst (GetVirtualAddressInternal m' (snd first) vtable' size' r2)
        = GetVirtualAddress m' vtable' size' r2)
  /\ (index (fst first) < size ->
      snd second
      = <[ref_home r2 := fst first]> (<[ref_home r1 := fst first]> cache)).
Proof.
  intros first second Hmsc Hptr Hadj Hlow Hhome Hnone1 Hnone2.
  subst second first.
  assert (Hlow2 : ref_ptr r2 mod 256 <> 233) by now rewrite Hptr.
  assert (Hkey1 : forall m', GetAddress bld m' r1 = ref_home r1)
    by (intros m'; now apply GetAddress_outside_MSVC).
  assert (Hkey2 : forall m', GetAddress bld m' r2 = ref_home r2)
    by (intros m'; now apply GetAddress_outside_MSVC).
  assert (Hfirst :
    GetVirtualAddressInternal m cache vtable size r1
    = (GetVirtualAddress m vtable size r1,
       if index (GetVirtualAddress m vtable size r1) <? size
       then <[ref_home r1 := GetVirtualAddress m vtable size r1]> cache
       else cache)).
  { rewrite GetVirtualAddressInternal_miss by now rewrite Hkey1.
    now rewrite Hkey1. }
  assert (Hmiss :
    snd (GetVirtualAddressInternal m cache vtable size r1) !! ref_home r2
    = None).
  { rewrite Hfirst. cbn [snd]. destruct (_ <? _); [|exact Hnone2].
    rewrite lookup_insert_ne by congruence. exact Hnone2. }
  split; [apply Hkey1|]. split; [apply Hkey2|].
  split; [now rewrite Hkey2|].
  split.
  - intros m' vtable' size'.
    rewrite GetVirtualAddressInternal_miss by now rewrite Hkey2.
    reflexivity.
  - intros Hfound.
    rewrite GetVirtualAddressInternal_miss by now rewrite Hkey2.
    rewrite Hkey2, (GetVirtualAddress_by_value m vtable size r1 r2 Hmsc Hptr).
    rewrite Hfirst in *. cbn [fst snd] in *.
    apply N.ltb_lt in Hfound. now rewrite Hfound.
Qed.

End ResolverKey.

Section ResolverKeyExamples.

Import Scenario.

(** C7 on a 64-bit build outside MSVC: [&Target::f1], the value 9, taken
    by value at 0x7FFF0000 and at 0x7FFEFFA0.  The second resolution
    misses and the cache ends with an entry per copy. *)
Lemma resolver_key_is_the_parameter_address_outside_MSVC_witness :
  let first :=
    GetVirtualAddressInternal (P := gcc64) image ∅ 8192 2 f1_from_here in
  let second :=
    GetVirtualAddressInternal (P := gcc64) image (snd first) 8192 2
      f1_from_there in
  snd first !! GetAddress Other64 image f1_from_there = None
  /\ snd second
     = <[2147418016 := fst first]> (<[2147418112 := fst first]> ∅).
Proof.
  intros first second. subst second first.
  destruct (resolver_key_is_the_parameter_address_outside_MSVC (P := gcc64)
              image ∅ 8192 2 f1_from_here f1_from_there)
    as (_ & _ & Hmiss & _ & Htwo).
  - reflexivity.
  - reflexivity.
  - reflexivity.
  - vm_compute. discriminate.
  - vm_compute. discriminate.
  - apply lookup_empty.
  - apply lookup_empty.
  - split; [exact Hmiss|]. apply Htwo. vm_compute. reflexivity.
Defined.

(** The same on the registry, with a [Hook] between the two resolutions:
    under MSVC the second resolution answers from the cache with the
    [Member] of the first; outside MSVC it reads the table again and
    answers with the substitute now in the slot. *)
Example resolving_twice_around_a_Hook :
  fst (GetTargetVirtualAddress ready Target_f1)
  = {| address := 16640; index := 1 |}
  /\ fst (GetTargetVirtualAddress hooked Target_f1)
     = {| address := 16640; index := 1 |}
  /\ fst (GetTargetVirtualAddress gcc_ready f1_from_here)
     = {| address := 16640; index := 1 |}
  /\ fst (GetTargetVirtualAddress gcc_hooked f1_from_there)
     = {| address := 20736; index := 1 |}
  /\ target_cache gcc_hooked !! 2147418016 = None.
Proof. repeat split; vm_compute; reflexivity. Qed.

(** C3, as stated, fails.  Slot 1 is hooked, and [Hook] is called again
    on the same member through a reference the registry has not resolved
    yet: under MSVC through the second thunk of [&Target::f1], outside
    MSVC through [&Target::f1] taken by value at another place.  [Hook]
    returns false and writes nothing, and the target cache has gained the
    entry of that reference: the registry is not unchanged. *)
Lemma Hook_of_hooked_slot_memoises :
  (already_hooked hooked_once (Method Target_f1_elsewhere)
   /\ fst (Hook hooked_once (Method Target_f1_elsewhere) Substitute_f1)
      = false
   /\ target_cache hooked_once !! 24608 = None
   /\ target_cache
        (snd (Hook hooked_once (Method Target_f1_elsewhere) Substitute_f1))
      !! 24608
      = Some {| address := 20736; index := 1 |}
   /\ snd (Hook hooked_once (Method Target_f1_elsewhere) Substitute_f1)
      <> hooked_once)
  /\ (already_hooked gcc_hooked (Method f1_from_there)
      /\ fst (Hook gcc_hooked (Method f1_from_there) substitute_f1_copy)
         = false
      /\ target_cache gcc_hooked !! 2147418016 = None
      /\ target_cache
           (snd (Hook gcc_hooked (Method f1_from_there) substitute_f1_copy))
         !! 2147418016
         = Some {| address := 20736; index := 1 |}
      /\ snd (Hook gcc_hooked (Method f1_from_there) substitute_f1_copy)
         <> gcc_hooked).
Proof.
  split; (split; [left; split;
                    [vm_compute; reflexivity
                    | intros H; vm_compute in H; discriminate]|]);
    (split; [vm_compute; reflexivity|]);
    (split; [vm_compute; reflexivity|]);
    (split; [vm_compute; reflexivity|]).
  - intros H.
    apply (f_equal (fun st => target_cache st !! 24608)) in H.
    vm_compute in H. discriminate.
  - intros H.
    apply (f_equal (fun st => target_cache st !! 2147418016)) in H.
    vm_compute in H. discriminate.
Qed.

(** The case the amended C3 leaves out.  The engine turns the hook of
    the thunk at 0x9010 down before [Initialize], and the entry
    [hooks[address]] made stays in the hook map.  After [Initialize] a
    hook is registered for the raw address of the reference and
    [IsHooked] says so; [Hook] resolves the reference to slot 0, finds
    the slot untouched, overwrites it and returns true. *)
Example Hook_of_registered_address_writes_its_slot :
  hook_registered refused_then_ready
    (raw_address refused_then_ready (Method Target_f0_far))
  /\ resolves_to_slot refused_then_ready (Method Target_f0_far)
  /\ fst (IsHooked refused_then_ready (Method Target_f0_far)) = true
  /\ fst (Hook refused_then_ready (Method Target_f0_far) Substitute_f1) = true
  /\ target_slot refused_then_ready 0 = 16384
  /\ target_slot
       (snd (Hook refused_then_ready (Method Target_f0_far) Substitute_f1)) 0
     = 20736.
Proof.
  split; [exists 0; vm_compute; reflexivity|].
  repeat split; vm_compute; reflexivity.
Qed.

End ResolverKeyExamples.

Section Properties3.

Context {P : Platform}.

Local Abbreviation bld := (@build P).

Implicit Types (st : @State P) (o : OriginalRef) (r s : MethodRef).

(** ** Initialize: what the two walks capture *)

Lemma copy_slots_stop (k : nat) :
  forall (m : Memory) (vtable : N) (original res : list N),
    copy_slots k m vtable original = Some res ->
    N.of_nat (length res) < vector_max_size ->
    vtable_at bld m vtable (N.of_nat (length res - length original)) = 0.
Proof.
  induction k as [|k IH]; intros m vtable original res H Hroom;
    [discriminate|].
  cbn [copy_slots] in H.
  destruct (N.ltb_spec (N.of_nat (length original)) vector_max_size)
    as [Hlt|Hge]; cbn [andb] in H.
  - destruct (N.eqb_spec (load_ptr bld m vtable) 0) as [Hz|Hnz];
      cbn [negb] in H.
    + injection H as <-. rewrite Nat.sub_diag.
      unfold vtable_at, slot_addr. simpl. now rewrite N.add_0_r.
    + pose proof (copy_slots_result _ _ _ _ _ H) as (extra & -> & _).
      specialize (IH _ _ _ _ H Hroom).
      rewrite !length_app in *. simpl in *.
      unfold vtable_at, slot_addr in *.
      replace (length original + 1 + length extra - (length original + 1))%nat
        with (length extra) in IH by lia.
      replace (length original + 1 + length extra - length original)%nat
        with (S (length extra)) by lia.
      rewrite <- IH. f_equal. lia.
  - injection H as <-. lia.
Qed.

(** X4.  On the statics as the header initialises them, a successful
    [Initialize] leaves the memory and the hook map alone and captures
    the table as it stands: every slot below [target_size] is non-null
    and equal to its snapshot value (nothing is hooked yet),
    [target_size] is the length of the snapshot, the slot at
    [target_size] is null unless the snapshot reached the vector's
    capacity, and [substitute_size] is the index of the first null slot
    of the substitute's table. *)
Theorem Initialize_captures_the_table
        (fuel : nat) st st' (instance substitute : N) :
  original_vtable st = [] ->
  substitute_size st = 0 ->
  Initialize fuel st instance substitute = Some (true, st') ->
  memory st' = memory st
  /\ hooks st' = hooks st
  /\ target_vtable st' = GetVirtualTable (memory st) instance
  /\ substitute_vtable st' = GetVirtualTable (memory st) substitute
  /\ target_size st' = N.of_nat (length (original_vtable st'))
  /\ (forall i, i < target_size st' ->
        snapshot_at st' i = target_slot st' i /\ target_slot st' i <> 0)
  /\ (target_size st' < vector_max_size ->
      target_slot st' (target_size st') = 0)
  /\ (forall i, i < substitute_size st' ->
        vtable_at bld (memory st') (substitute_vtable st') i <> 0)
  /\ vtable_at bld (memory st') (substitute_vtable st') (substitute_size st')
     = 0.
Proof.
  intros Hempty Hzero Hinit.
  pose proof (Initialize_snapshot fuel st st' instance substitute Hempty Hinit)
    as Hsnap.
  revert Hinit Hsnap. unfold Initialize.
  destruct (N.eqb_spec (target_vtable st) 0) as [Hnull|_];
    cbn [negb]; [|discriminate].
  cbn [memory target_vtable set_target_vtable original_vtable].
  destruct (_ || _); [discriminate|].
  destruct (copy_slots _ _ _ _) as [original|] eqn:Hcopy; [|discriminate].
  cbn [memory set_original_vtable set_target_size set_substitute_vtable
       set_target_vtable substitute_vtable substitute_size original_vtable].
  destruct (count_slots _ _ _ _) as [size|] eqn:Hcount; [|discriminate].
  intros [= <-] Hsnap.
  unfold target_slot in *.
  cbn [memory hooks target_size target_vtable substitute_vtable
       substitute_size original_vtable set_substitute_size
       set_substitute_vtable set_target_size set_original_vtable
       set_target_vtable] in *.
  apply count_slots_result in Hcount as (_ & Hend & Hfull).
  rewrite Hzero in Hfull.
  split; [reflexivity|]. split; [reflexivity|]. split; [reflexivity|].
  split; [reflexivity|]. split; [reflexivity|].
  split.
  { intros i Hi. destruct (Hsnap i Hi) as [Heq Hnz].
    split; [exact Heq | now rewrite <- Heq]. }
  split.
  { intros Hroom. pose proof (copy_slots_stop _ _ _ _ _ Hcopy Hroom) as Hstop.
    rewrite Hempty in Hstop. simpl in Hstop.
    now rewrite Nat.sub_0_r in Hstop. }
  split; [|exact Hend].
  intros i Hi. apply Hfull. lia.
Qed.

(** ** The caches *)

Lemma GetVirtualAddressInternal_grows m (cache : gmap N Member) vtable size r :
  cache ⊆ snd (GetVirtualAddressInternal m cache vtable size r).
Proof.
  unfold GetVirtualAddressInternal.
  destruct (cache !! _) as [found|] eqn:Hk; [reflexivity|].
  destruct (_ <? _); simpl; [|reflexivity].
  now apply insert_subseteq.
Qed.

Lemma resolved_cache_grows st o : target_cache st ⊆ resolved_cache st o.
Proof.
  destruct o as [f|r]; [reflexivity|]. apply GetVirtualAddressInternal_grows.
Qed.

Lemma GetSubstituteVirtualAddress_shape st s :
  exists cache,
    GetSubstituteVirtualAddress st s
    = (resolve_substitute st s, set_substitute_cache st cache)
    /\ substitute_cache st ⊆ cache.
Proof.
  unfold resolve_substitute, GetSubstituteVirtualAddress.
  pose proof (GetVirtualAddressInternal_grows (memory st) (substitute_cache st)
                (substitute_vtable st) (substitute_size st) s) as H.
  destruct (GetVirtualAddressInternal _ _ _ _ _) as [found cache].
  now exists cache.
Qed.

End Properties3.

(** Walking the branches of an operation: the two resolvers are replaced
    by what they return, and every test is split. *)
Ltac walk :=
  repeat match goal with
    | |- context [GetTargetVirtualAddress ?st ?r] =>
        rewrite (GetTargetVirtualAddress_eq st r)
    | |- context [GetSubstituteVirtualAddress ?st ?s] =>
        let c := fresh "c" in
        let Hc := fresh "Hc" in
        let Hg := fresh "Hgrow" in
        destruct (GetSubstituteVirtualAddress_shape st s) as (c & Hc & Hg);
        rewrite Hc
    | |- context [if ?b then _ else _] => destruct b eqn:?
    | |- context [match ?x with Some _ => _ | None => _ end] =>
        destruct x eqn:?
    end.

Ltac unfold_ops :=
  unfold step, Hook, UnHook, IsHooked, Call,
    HookInternal_function, HookInternal,
    UnHookInternal_function, UnHookInternal,
    IsHookedInternal_function, IsHookedInternal,
    CallInternal_function, CallInternal.

Ltac use_install_frame :=
  try match goal with
    | |- context [install ?st ?a ?b] =>
        let Hf := fresh "Hf" in
        let Ht := fresh "Ht" in
        let Hs := fresh "Hs" in
        let Hp := fresh "Hp" in
        destruct (install_frame st a b) as (Hf & Ht & Hs & Hp & _);
        rewrite ?Ht, ?Hs, ?Hp
    end.

Ltac fields :=
  cbn [fst snd memory protections hooks target_cache substitute_cache
       target_size target_vtable substitute_size substitute_vtable
       original_vtable ProtectMemory erase set_memory set_protections
       set_hooks set_target_cache set_substitute_cache] in *.

Section Properties4.

Context {P : Platform}.

Local Abbreviation bld := (@build P).

Implicit Types (st : @State P) (o : OriginalRef) (r s : MethodRef).

Lemma step_caches st (op : Op) :
  target_cache st ⊆ target_cache (step st op)
  /\ substitute_cache st ⊆ substitute_cache (step st op).
Proof.
  destruct op as [[f|r] s|[f|r]|[f|r]|i [f|r] a]; unfold_ops; walk;
    use_install_frame; fields;
    (split; [first [reflexivity | apply resolved_cache_grows]
            | first [reflexivity | assumption]]).
Qed.

(** X5.  The caches only grow: whatever operations run, an entry a cache
    holds stays in it with the [Member] it was stored with. *)
Theorem caches_only_grow st (ops : list Op) :
  target_cache st ⊆ target_cache (run st ops)
  /\ substitute_cache st ⊆ substitute_cache (run st ops).
Proof.
  revert st. induction ops as [|op ops IH]; intros st; simpl.
  - split; reflexivity.
  - destruct (step_caches st op) as [Ht Hs].
    destruct (IH (step st op)) as [Ht' Hs'].
    split; etrans; eassumption.
Qed.

(** X6.  [IsHooked] and [Call] are queries: they write no memory, make no
    [ProtectMemory] call and leave the hook map, the snapshot, the sizes,
    the table pointers and the substitute cache as they are.  The target
    cache is the one member they may change, and only by adding to
    it. *)
Theorem queries_touch_only_the_target_cache
        st o (instance : N) (args : list N) :
  snd (IsHooked st o)
  = set_target_cache st (target_cache (snd (IsHooked st o)))
  /\ snd (Call st instance o args)
     = set_target_cache st (target_cache (snd (Call st instance o args)))
  /\ target_cache st ⊆ target_cache (snd (IsHooked st o))
  /\ target_cache st ⊆ target_cache (snd (Call st instance o args)).
Proof.
  split; [|split; [|split]].
  - destruct o as [f|r]; unfold_ops; walk; fields;
      now rewrite ?set_target_cache_id.
  - destruct o as [f|r]; unfold_ops; walk; fields;
      now rewrite ?set_target_cache_id.
  - apply (step_caches st (OpIsHooked o)).
  - apply (step_caches st (OpCall instance o args)).
Qed.

(** ** ProtectMemory *)

Lemma bracketed_app (l l' : list ProtectCall) :
  bracketed l -> bracketed l' -> bracketed (l ++ l').
Proof.
  intros Hl Hl'.
  assert (H : forall n (k : list ProtectCall),
             (length k <= n)%nat -> bracketed k -> bracketed (k ++ l')).
  { induction n as [|n IH]; intros k Hn Hk.
    - destruct k; [exact Hl' | simpl in Hn; lia].
    - destruct k as [|lift [|back k]]; [exact Hl' | contradiction |].
      simpl in Hk |- *. destruct Hk as (H1 & H2 & H3 & H4 & Hk).
      repeat split; try assumption.
      apply IH; [simpl in Hn; lia | exact Hk]. }
  now apply (H (length l)).
Qed.

Lemma step_protections st (op : Op) :
  protections (step st op) = protections st
  \/ exists i,
       i < target_size st
       /\ protections (step st op)
          = protections st
            ++ [ {| pMemory := slot_addr bld (target_vtable st) i;
                    uiLen := sizeof_ptr bld; protect := false |};
                 {| pMemory := slot_addr bld (target_vtable st) i;
                    uiLen := sizeof_ptr bld; protect := true |} ].
Proof.
  destruct op as [[f|r] s|[f|r]|[f|r]|i [f|r] a]; unfold_ops; walk;
    use_install_frame; fields; try (now left);
    right; exists (index (resolve_target st (Method r)));
    (split; [|now rewrite <- app_assoc]).
  - now apply N.ltb_lt.
  - now apply N.leb_gt.
Qed.

Lemma destructor_protections st :
  protections (ClassProxy_destructor st) = protections st
  \/ protections (ClassProxy_destructor st)
     = protections st
       ++ [ {| pMemory := target_vtable st;
               uiLen := target_size st * sizeof_ptr bld; protect := false |};
            {| pMemory := target_vtable st;
               uiLen := target_size st * sizeof_ptr bld; protect := true |} ].
Proof.
  unfold ClassProxy_destructor. destruct (_ && _); [right | now left].
  fields. now rewrite <- app_assoc.
Qed.

(** X7.  Protection is only ever lifted in brackets: every operation, and
    the destructor after them, extends the log of [ProtectMemory] calls
    by nothing or by a call lifting the protection of a range followed by
    the call restoring it on the same range; no operation returns with a
    bracket open. *)
Theorem protection_is_lifted_in_brackets st (ops : list Op) :
  bracketed (protections st) ->
  bracketed (protections (run st ops))
  /\ bracketed (protections (ClassProxy_destructor (run st ops))).
Proof.
  intros Hst.
  assert (Hrun : bracketed (protections (run st ops))).
  { revert st Hst. induction ops as [|op ops IH]; intros st Hst; simpl;
      [exact Hst|].
    apply IH. destruct (step_protections st op) as [->|(i & _ & ->)];
      [exact Hst|].
    apply bracketed_app; [exact Hst | simpl; tauto]. }
  split; [exact Hrun|].
  destruct (destructor_protections (run st ops)) as [->| ->]; [exact Hrun|].
  apply bracketed_app; [exact Hrun | simpl; tauto].
Qed.

(** X8.  A [Hook] that returns false has made no [ProtectMemory] call;
    and when the original resolves to a target slot, be it a hooked slot
    or a substitute that resolves to nothing, it has written no memory
    and left the hook map as it was. *)
Theorem failed_Hook_lifts_no_protection st o s :
  fst (Hook st o s) = false ->
  protections (snd (Hook st o s)) = protections st
  /\ (resolves_to_slot st o ->
      memory (snd (Hook st o s)) = memory st
      /\ hooks (snd (Hook st o s)) = hooks st).
Proof.
  destruct o as [f|r]; unfold resolves_to_slot;
    [|rewrite GetTargetVirtualAddress_eq; cbn [fst]];
    unfold_ops; walk; use_install_frame; fields;
    intros Hfalse; try discriminate;
    (split; [reflexivity|]); intros Hres;
    try contradiction; try (split; reflexivity);
    apply N.ltb_ge in Heqb; lia.
Qed.

End Properties4.

Section Properties5.

Context {P : Platform}.

Local Abbreviation bld := (@build P).

Implicit Types (st : @State P) (o : OriginalRef) (r s : MethodRef).

(** ** Hook, then the other operations *)

(** The registry a successful slot [Hook] leaves. *)
Lemma Hook_slot_success st r s :
  resolves_to_slot st (Method r) ->
  fst (Hook st (Method r) s) = true ->
  let i := index (resolve_target st (Method r)) in
  let slot := slot_addr bld (target_vtable st) i in
  let X := address (resolve_substitute st s) in
  target_slot st i = snapshot_at st i
  /\ index (resolve_substitute st s) < substitute_size st
  /\ exists c,
       snd (Hook st (Method r) s)
       = ProtectMemory
           (set_memory
              (ProtectMemory
                 (set_substitute_cache
                    (set_target_cache st (resolved_cache st (Method r))) c)
                 slot (sizeof_ptr bld) false)
              (store_ptr bld (memory st) slot X))
           slot (sizeof_ptr bld) true.
Proof.
  intros Hres Hok i slot X. subst i slot X.
  simpl in *. unfold HookInternal in *.
  rewrite GetTargetVirtualAddress_eq in *.
  cbn [fst snd target_size set_target_cache] in *.
  apply N.ltb_lt in Hres. rewrite Hres in *.
  unfold target_slot, snapshot_at in *.
  cbn [memory target_vtable original_vtable set_target_cache] in *.
  destruct (N.eqb_spec
              (vtable_at bld (memory st) (target_vtable st)
                 (index (resolve_target st (Method r))))
              (default 0 (original_vtable st
                          !! N.to_nat (index (resolve_target st (Method r))))))
    as [Heq|_]; cbn [negb] in *; [|discriminate].
  destruct (GetSubstituteVirtualAddress_eq
              (set_target_cache st (resolved_cache st (Method r))) s)
    as [c Hc].
  rewrite Hc in *. rewrite resolve_substitute_set_target_cache in *.
  cbn [substitute_size set_substitute_cache set_target_cache] in *.
  destruct (N.leb_spec (substitute_size st) (index (resolve_substitute st s)));
    [discriminate|].
  split; [exact Heq|]. split; [assumption|]. now exists c.
Qed.

Lemma resolved_cache_lookup st r :
  resolves_to_slot st (Method r) ->
  resolved_cache st (Method r) !! GetAddress bld (memory st) r
  = Some (resolve_target st (Method r)).
Proof.
  simpl. unfold GetTargetVirtualAddress, GetVirtualAddressInternal.
  destruct (target_cache st !! _) as [found|] eqn:Hk; simpl; [intros _; exact Hk|].
  destruct (N.ltb_spec (index (GetVirtualAddress (memory st) (target_vtable st)
                                 (target_size st) r)) (target_size st));
    simpl; [intros _; apply lookup_insert_eq | lia].
Qed.

(** Resolving a cached reference answers with the cached [Member] and
    changes nothing. *)
Lemma GetTargetVirtualAddress_cached st r found :
  target_cache st !! GetAddress bld (memory st) r = Some found ->
  GetTargetVirtualAddress st r = (found, st).
Proof.
  intros H. unfold GetTargetVirtualAddress.
  rewrite (GetVirtualAddressInternal_hit _ _ _ _ _ _ H).
  now rewrite set_target_cache_id.
Qed.

(** What the operations that follow a successful slot [Hook] see. *)
Lemma after_slot_Hook st r r' s :
  resolves_to_slot st (Method r) ->
  fst (Hook st (Method r) s) = true ->
  let i := index (resolve_target st (Method r)) in
  let slot := slot_addr bld (target_vtable st) i in
  let X := address (resolve_substitute st s) in
  let st' := snd (Hook st (Method r) s) in
  GetAddress bld (store_ptr bld (memory st) slot X) r'
  = GetAddress bld (memory st) r ->
  memory st' = store_ptr bld (memory st) slot X
  /\ hooks st' = hooks st
  /\ frozen st st'
  /\ protections st'
     = protections st
       ++ [ {| pMemory := slot; uiLen := sizeof_ptr bld; protect := false |};
            {| pMemory := slot; uiLen := sizeof_ptr bld; protect := true |} ]
  /\ target_slot st i = snapshot_at st i
  /\ GetTargetVirtualAddress st' r' = (resolve_target st (Method r), st').
Proof.
  intros Hres Hok i slot X st' Hkey. subst st'.
  destruct (Hook_slot_success st r s Hres Hok) as (Heq & _ & c & ->).
  fold i slot X. fields.
  repeat split; try assumption.
  - now rewrite <- app_assoc.
  - apply GetTargetVirtualAddress_cached. fields.
    rewrite Hkey. now apply resolved_cache_lookup.
Qed.

(** X9.  After a successful [Hook] of the slot a reference resolves to,
    the slot reads the substitute's address and, when that address is not
    the original's, [IsHooked] answers true for a reference [r'] to the
    member.  ([GetAddress] must compute for [r'], on the memory after the
    write, the key the resolution of [r] was filed under, and the
    substitute's address must fit a pointer.) *)
Theorem Hook_then_IsHooked st r r' s :
  let i := index (resolve_target st (Method r)) in
  let slot := slot_addr bld (target_vtable st) i in
  let X := address (resolve_substitute st s) in
  let st' := snd (Hook st (Method r) s) in
  resolves_to_slot st (Method r) ->
  fst (Hook st (Method r) s) = true ->
  GetAddress bld (store_ptr bld (memory st) slot X) r'
  = GetAddress bld (memory st) r ->
  pointer_sized bld X ->
  X <> snapshot_at st i ->
  target_slot st' i = X
  /\ fst (IsHooked st' (Method r')) = true.
Proof.
  intros i slot X st' Hres Hok Hkey Hptr Hne.
  destruct (after_slot_Hook st r r' s Hres Hok Hkey)
    as (Hmem & Hhooks & (Horig & Hsize & Hvt & _) & _ & _ & Hresolve).
  fold i slot X st' in Hmem, Hhooks, Horig, Hsize, Hvt, Hresolve.
  assert (Hslot : target_slot st' i = X).
  { unfold target_slot. rewrite Hmem, Hvt.
    unfold vtable_at. now apply load_ptr_store_ptr. }
  split; [exact Hslot|].
  simpl. unfold IsHookedInternal.
  destruct (hooks st' !! _); [reflexivity|].
  rewrite Hresolve. fold i. rewrite Hsize.
  apply N.leb_gt in Hres. simpl in Hres.
  rewrite GetTargetVirtualAddress_eq in Hres. cbn [fst] in Hres.
  fold i in Hres. rewrite Hres.
  cbn [fst]. rewrite Hslot.
  unfold snapshot_at. rewrite Horig. fold (snapshot_at st i).
  apply N.eqb_neq in Hne. now rewrite Hne.
Qed.

(** X10.  While a slot hook is active, [Call] reaches the original: it
    calls through the value the slot held before the [Hook], not through
    the substitute now in the slot.  (No trampoline is registered for the
    reference, the sentinel index is not below [target_size], and
    [GetAddress] computes for the reference [r'] given to [Call], on the
    memory after the write, the key the resolution of [r] was filed
    under.) *)
Theorem Call_after_Hook_invokes_the_original
        st r r' s (instance : N) (args : list N) :
  let i := index (resolve_target st (Method r)) in
  let slot := slot_addr bld (target_vtable st) i in
  let X := address (resolve_substitute st s) in
  let st' := snd (Hook st (Method r) s) in
  resolves_to_slot st (Method r) ->
  fst (Hook st (Method r) s) = true ->
  GetAddress bld (store_ptr bld (memory st) slot X) r'
  = GetAddress bld (memory st) r ->
  trampoline_of st (GetAddress bld (memory st) r) = 0 ->
  target_size st <= npos ->
  callee_of (fst (Call st' instance (Method r') args))
  = Some (target_slot st i).
Proof.
  intros i slot X st' Hres Hok Hkey Htramp Hnpos.
  destruct (after_slot_Hook st r r' s Hres Hok Hkey)
    as (Hmem & Hhooks & (Horig & Hsize & Hvt & _) & _ & Heq & Hresolve).
  fold i slot X st' in Hmem, Hhooks, Horig, Hsize, Hvt, Hresolve, Heq.
  assert (Hlt : (i <? target_size st) = true).
  { apply N.ltb_lt. simpl in Hres.
    now rewrite GetTargetVirtualAddress_eq in Hres. }
  assert (Hge : (target_size st <=? i) = false)
    by (apply N.leb_gt; now apply N.ltb_lt).
  assert (Hn : (target_size st <=? npos) = true) by now apply N.leb_le.
  assert (Hsnap : snapshot_at st' i = target_slot st i).
  { unfold snapshot_at. rewrite Horig. now rewrite Heq. }
  simpl. unfold CallInternal.
  rewrite Hhooks, Hmem. fold slot X. rewrite Hkey.
  unfold trampoline_of in Htramp.
  destruct (hooks st !! GetAddress bld (memory st) r) as [h|];
    [rewrite Htramp|];
    repeat (progress (rewrite ?N.eqb_refl, ?Hsize, ?Hn, ?Hresolve;
                      fold i; rewrite ?Hlt, ?Hge; member_simpl));
    now rewrite Hsnap.
Qed.

End Properties5.

Section Properties6.

Context {P : Platform}.

Local Abbreviation bld := (@build P).

Implicit Types (st : @State P) (o : OriginalRef) (r s : MethodRef).

Lemma store_back_bytes (n : nat) (m : Memory) (a w x : N) :
  load8 (store_le n (store_le n m a w) a (load_le n m a)) x = load8 m x.
Proof.
  destruct (N.lt_ge_cases x a) as [Hlo|Hge].
  - rewrite !load8_store_le_outside by lia. reflexivity.
  - destruct (N.lt_ge_cases x (a + N.of_nat n)) as [Hin|Hhi].
    + rewrite load8_store_le_inside by lia.
      rewrite <- (store_le_same n m a x).
      now rewrite load8_store_le_inside by lia.
    + rewrite !load8_store_le_outside by lia. reflexivity.
Qed.

(** X11.  [Hook] then [UnHook] of a slot is a round trip: [UnHook]
    succeeds, every byte of the memory reads as it did before the
    [Hook], and the hook map, the snapshot, the sizes and the table
    pointers are what they were.  (No trampoline hook is registered for
    the reference, the substitute's address fits a pointer and differs
    from the original's, and [GetAddress] computes for the reference [r']
    given to [UnHook], on the memory after the write, the key the
    resolution of [r] was filed under.) *)
Theorem Hook_then_UnHook_restores_memory st r r' s :
  let i := index (resolve_target st (Method r)) in
  let slot := slot_addr bld (target_vtable st) i in
  let X := address (resolve_substitute st s) in
  let st' := snd (Hook st (Method r) s) in
  let st'' := snd (UnHook st' (Method r')) in
  resolves_to_slot st (Method r) ->
  fst (Hook st (Method r) s) = true ->
  GetAddress bld (store_ptr bld (memory st) slot X) r'
  = GetAddress bld (memory st) r ->
  hooks st !! GetAddress bld (memory st) r = None ->
  pointer_sized bld X ->
  X <> snapshot_at st i ->
  fst (UnHook st' (Method r')) = true
  /\ (forall x, load8 (memory st'') x = load8 (memory st) x)
  /\ target_slot st'' i = target_slot st i
  /\ hooks st'' = hooks st
  /\ frozen st st''.
Proof.
  intros i slot X st' st'' Hres Hok Hkey Hnone Hptr Hne. subst st''.
  destruct (after_slot_Hook st r r' s Hres Hok Hkey)
    as (Hmem & Hhooks & (Horig & Hsize & Hvt & Hss & Hsv) & _ & Heq
        & Hresolve).
  fold i slot X st' in Hmem, Hhooks, Horig, Hsize, Hvt, Hss, Hsv, Hresolve, Heq.
  assert (Hres' : (target_size st <=? i) = false).
  { apply N.leb_gt. simpl in Hres.
    now rewrite GetTargetVirtualAddress_eq in Hres. }
  assert (Hslot : target_slot st' i = X).
  { unfold target_slot. rewrite Hmem, Hvt.
    unfold vtable_at. now apply load_ptr_store_ptr. }
  assert (Hsnap : snapshot_at st' i = snapshot_at st i).
  { unfold snapshot_at. now rewrite Horig. }
  simpl. unfold UnHookInternal.
  rewrite Hhooks, Hmem. fold slot X. rewrite Hkey, Hnone.
  rewrite Hresolve. fold i.
  rewrite Hsize, Hres', Hsnap, Hslot.
  apply N.eqb_neq in Hne. rewrite Hne.
  unfold target_slot, frozen. fields. rewrite Hvt, Hmem. fold slot.
  split; [reflexivity|].
  assert (Hbytes : forall x,
    load8 (store_ptr bld (store_ptr bld (memory st) slot X) slot
             (snapshot_at st i)) x = load8 (memory st) x).
  { intros x. rewrite <- Heq. apply store_back_bytes. }
  split; [exact Hbytes|].
  split.
  { unfold vtable_at, load_ptr. fold slot. apply load_le_ext.
    intros x _. apply Hbytes. }
  now repeat split.
Qed.

(** X12.  Slots are hooked and unhooked one at a time: a successful
    [Hook] of the slot a reference resolves to, and a successful [UnHook]
    that restores it, leave every other slot of the target table with the
    value it had. *)
Theorem other_slots_keep_their_value st r s (j : N) :
  let i := index (resolve_target st (Method r)) in
  j <> i ->
  resolves_to_slot st (Method r) ->
  (fst (Hook st (Method r) s) = true ->
   target_slot (snd (Hook st (Method r) s)) j = target_slot st j)
  /\ (hooks st !! GetAddress bld (memory st) r = None ->
      fst (UnHook st (Method r)) = true ->
      target_slot (snd (UnHook st (Method r))) j = target_slot st j).
Proof.
  intros i Hj Hres. split.
  - intros Hok.
    destruct (Hook_slot_success st r s Hres Hok) as (_ & _ & c & ->).
    fold i. unfold target_slot. fields.
    apply vtable_at_store_other. congruence.
  - intros Hnone. simpl. unfold UnHookInternal. rewrite Hnone.
    rewrite GetTargetVirtualAddress_eq. fold i.
    unfold target_slot. fields.
    destruct (_ <=? _); [discriminate|].
    destruct (_ =? _); [discriminate|]. intros _. fields.
    apply vtable_at_store_other. congruence.
Qed.

(** ** The plain-function overloads *)

Lemma install_hooks st (a subst : N) :
  exists h, hooks (snd (install st a subst)) = <[a := h]> (hooks st).
Proof.
  unfold install.
  destruct (Detour_Create _ _ _ _) as [[created h1] m1].
  destruct created; cbn [negb].
  - destruct (Detour_Enable _ _) as [[enabled h2] m2]. exists h2. fields.
    now rewrite !insert_insert_eq.
  - exists h1. fields. now rewrite !insert_insert_eq.
Qed.

(** X13.  A trampoline hook on a plain function goes in and out of the
    hook map: when [Hook] succeeds the function was non-null and not
    registered, [IsHooked] then answers true, [UnHook] succeeds and
    leaves the hook map exactly as it was before the [Hook], and a second
    [UnHook] fails. *)
Theorem function_hook_round_trip st (f : N) s :
  let st1 := snd (Hook st (Function f) s) in
  let st2 := snd (UnHook st1 (Function f)) in
  fst (Hook st (Function f) s) = true ->
  f <> 0
  /\ hooks st !! f = None
  /\ fst (IsHooked st1 (Function f)) = true
  /\ fst (UnHook st1 (Function f)) = true
  /\ hooks st2 = hooks st
  /\ fst (IsHooked st2 (Function f)) = false
  /\ UnHook st2 (Function f) = (false, st2).
Proof.
  intros st1 st2. subst st2 st1. simpl.
  unfold HookInternal_function.
  destruct (N.eqb_spec f 0) as [|Hf]; [discriminate|].
  destruct (hooks st !! f) eqn:Hnone; [discriminate|].
  destruct (_ =? 0); [discriminate|]. intros _.
  destruct (install_hooks st f (GetAddress bld (memory st) s)) as [h Hh].
  unfold IsHookedInternal_function, UnHookInternal_function.
  rewrite Hh, lookup_insert_eq. fields.
  rewrite Hh, delete_insert_id by exact Hnone. rewrite Hnone.
  now repeat split.
Qed.

End Properties6.

Section Properties7.

Context {P : Platform}.

Local Abbreviation bld := (@build P).

Implicit Types (st : @State P) (o : OriginalRef) (r s : MethodRef).

(** ** ~ClassProxy *)

Lemma restore_slots_outside (original : list N) :
  forall (m : Memory) (vtable x : N),
    x < vtable
    \/ vtable + N.of_nat (length original) * sizeof_ptr bld <= x ->
    restore_slots m vtable original x = m x.
Proof.
  induction original as [|it rest IH]; intros m vtable x Hx; [reflexivity|].
  cbn [restore_slots]. cbn [length] in Hx.
  rewrite IH by lia.
  destruct (negb _); [|reflexivity].
  apply store_ptr_outside. lia.
Qed.

Lemma restore_slots_inside (original : list N) :
  Forall (pointer_sized bld) original ->
  forall (m : Memory) (vtable : N) (j : nat) (v : N),
    original !! j = Some v ->
    vtable_at bld (restore_slots m vtable original) vtable (N.of_nat j) = v.
Proof.
  induction 1 as [|it rest Hit Hrest IH]; intros m vtable j v Hj;
    [discriminate|].
  cbn [restore_slots].
  set (m1 := if negb (load_ptr bld m vtable =? it)
             then store_ptr bld m vtable it else m).
  assert (Hm1 : load_ptr bld m1 vtable = it).
  { unfold m1. destruct (N.eqb_spec (load_ptr bld m vtable) it) as [Heq|_];
      cbn [negb]; [exact Heq | now apply load_ptr_store_ptr]. }
  destruct j as [|j].
  - injection Hj as <-. unfold vtable_at, slot_addr, load_ptr.
    rewrite N.mul_0_l, N.add_0_r.
    rewrite (load_le_ext _ m1); [exact Hm1|].
    intros x Hx. unfold load8.
    rewrite restore_slots_outside; [reflexivity|].
    left. fold (sizeof_ptr bld) in Hx. lia.
  - simpl in Hj. specialize (IH m1 (vtable + sizeof_ptr bld) j v Hj).
    unfold vtable_at, slot_addr in *.
    replace (vtable + N.of_nat (S j) * sizeof_ptr bld)
      with (vtable + sizeof_ptr bld + N.of_nat j * sizeof_ptr bld) by lia.
    exact IH.
Qed.

(** X14.  The destructor puts the table back: on an initialised registry
    ([target_vtable] non-null, [target_size] non-zero, the snapshot made
    of pointers) every slot the snapshot covers reads its snapshot value
    afterwards, however many were hooked, in one bracket over the whole
    table; no byte outside the table is written; the hook map and the
    caches are left as they are, so trampoline hooks outlive it.  On a
    registry that was never initialised it does nothing. *)
Theorem destructor_restores_the_table st :
  let st' := ClassProxy_destructor st in
  (target_vtable st = 0 \/ target_size st = 0 -> st' = st)
  /\ (target_vtable st <> 0 -> target_size st <> 0 ->
      snapshot_pointers st ->
      (forall i, i < N.of_nat (length (original_vtable st)) ->
         target_slot st' i = snapshot_at st i)
      /\ (forall x,
            x < target_vtable st
            \/ target_vtable st
               + N.of_nat (length (original_vtable st)) * sizeof_ptr bld
               <= x ->
            memory st' x = memory st x)
      /\ hooks st' = hooks st
      /\ target_cache st' = target_cache st
      /\ substitute_cache st' = substitute_cache st
      /\ frozen st st').
Proof.
  intros st'. subst st'. unfold ClassProxy_destructor. split.
  - intros [Hz|Hz]; rewrite Hz; [reflexivity|].
    now rewrite andb_false_r.
  - intros Hvt Hsize Hptr.
    apply N.eqb_neq in Hvt, Hsize. rewrite Hvt, Hsize. cbn [negb andb].
    unfold target_slot, frozen. fields.
    split; [|split; [|now repeat split]].
    + intros i Hi.
      destruct (original_vtable st !! N.to_nat i) as [v|] eqn:Hv.
      * unfold snapshot_at. rewrite Hv. simpl.
        rewrite <- (N2Nat.id i).
        apply restore_slots_inside; [|exact Hv].
        now apply snapshot_pointers_Forall.
      * apply lookup_ge_None in Hv. lia.
    + intros x Hx. now apply restore_slots_outside.
Qed.

(** ** The registry invariant *)

Lemma destructor_ok st : registry_ok st -> registry_ok (ClassProxy_destructor st).
Proof.
  intros Hok. unfold ClassProxy_destructor.
  destruct (_ && _); [|assumption].
  destruct Hok as (Ht & Hs & Hlen & Hptr). now repeat split.
Qed.

(** X15.  From the statics as the header initialises them, through every
    [Initialize], operation and destructor call, the caches hold only
    slots of their tables ([index] below the table's size),
    [target_size] is the length of the snapshot, and the snapshot holds
    pointer-sized values; so the [original_vtable[index]] the operations
    read under [index < target_size] is always inside the vector. *)
Theorem registry_invariant (m : Memory) :
  registry_ok (initial_state m)
  /\ (forall st (ops : list Op), registry_ok st -> registry_ok (run st ops))
  /\ (forall (fuel : nat) st st' (instance substitute : N) (b : bool),
        registry_ok st ->
        Initialize fuel st instance substitute = Some (b, st') ->
        registry_ok st')
  /\ (forall st, registry_ok st -> registry_ok (ClassProxy_destructor st))
  /\ (forall st i, registry_ok st -> i < target_size st ->
        is_Some (original_vtable st !! N.to_nat i)).
Proof.
  split; [apply registry_ok_initial|].
  split; [intros st ops; apply run_ok|].
  split; [intros fuel st st' i s b; apply Initialize_ok|].
  split; [apply destructor_ok|].
  intros st i (_ & _ & Hlen & _) Hi.
  apply lookup_lt_is_Some. lia.
Qed.

End Properties7.

Section Properties8.

Context {P : Platform}.

Local Abbreviation bld := (@build P).

Implicit Types (st : @State P) (o : OriginalRef) (r s : MethodRef).

(** ** The two encodings of a virtual member *)

(** X16.  A 64-bit MSVC build resolves the compiler's virtual-call thunk
    by decoding it: for a reference to code that reads
    [mov rax,[rcx]] (48 xx xx) and then [jmp [rax+d]] with a one-byte
    displacement (FF 60 d), the member is slot [d / 8], with the value
    that slot holds, whenever that slot is inside the table; the table is
    not scanned. *)
Theorem MSVC_x64_thunk_resolves_by_displacement
        (m : Memory) (vtable size : N) r :
  let code := ref_ptr r in
  let d := load8 m (code + 5) in
  bld = MSVC_Win64 ->
  vtable <> 0 -> code <> 0 ->
  load8 m code = 72 ->
  load8 m (code + 3) = 255 ->
  load8 m (code + 4) = 96 ->
  d / 8 < size ->
  GetVirtualAddress m vtable size r
  = Member_at (d / 8) (vtable_at bld m vtable (d / 8)).
Proof.
  intros code d Hb Hvt Hcode H0 H3 H4 Hd. subst code d.
  unfold GetVirtualAddress, GetAddress. rewrite Hb.
  cbn [msc_ver win64].
  apply N.eqb_neq in Hvt, Hcode. rewrite Hvt, Hcode.
  assert (Hsize : (size =? 0) = false)
    by (apply N.eqb_neq; intros ->; now apply N.nlt_0_r in Hd).
  rewrite Hsize. cbn [orb].
  rewrite H0. cbn [N.eqb Pos.eqb]. rewrite H0. cbn [N.eqb Pos.eqb].
  rewrite H3.
  replace (ref_ptr r + 3 + 1) with (ref_ptr r + 4) by lia.
  replace (ref_ptr r + 3 + 2) with (ref_ptr r + 5) by lia.
  rewrite H4. cbn [N.eqb Pos.eqb andb N.shiftr N.land].
  change (sizeof_ptr MSVC_Win64) with 8.
  change (N.land (N.shiftr 96 4) 3 =? 2) with true.
  change (N.shiftr 96 6 =? 1) with true. cbn iota.
  apply N.leb_gt in Hd. now rewrite Hd.
Qed.

(** X17.  Outside MSVC a virtual member is recognised by the value of the
    pointer itself: a reference whose first word is [k * sizeof( void * )
    + 1] with [k] inside the table resolves to slot [k], with the value
    that slot holds, without a look at the code or a scan. *)
Theorem offset_encoded_member_resolves_to_its_slot
        (m : Memory) (vtable size k : N) r :
  msc_ver bld = false ->
  vtable <> 0 ->
  k < size ->
  ref_ptr r = k * sizeof_ptr bld + 1 ->
  GetVirtualAddress m vtable size r
  = Member_at k (vtable_at bld m vtable k).
Proof.
  intros Hmsc Hvt Hk Hr. unfold GetVirtualAddress. rewrite Hmsc, Hr.
  apply N.eqb_neq in Hvt. rewrite Hvt.
  assert (Hsize : (size =? 0) = false) by (apply N.eqb_neq; lia).
  assert (Hnz : (k * sizeof_ptr bld + 1 =? 0) = false)
    by (apply N.eqb_neq; rewrite N.add_1_r; apply N.neq_succ_0).
  rewrite Hsize, Hnz. cbn [orb].
  replace ((k * sizeof_ptr bld + 1 - 1) / sizeof_ptr bld) with k.
  - apply N.leb_gt in Hk. now rewrite Hk.
  - rewrite N.add_sub, N.div_mul; [reflexivity|].
    pose proof (sizeof_ptr_ge_4 bld). lia.
Qed.


End Properties8.

Section Examples2.

Import Scenario.

(** X1 on the image: the store [Hook] makes into slot 1 of the table at
    0x2000 is far from the thunk of [&Target::f1] at 0x6000. *)
Lemma GetAddress_reads_five_bytes_witness :
  GetAddress MSVC_Win64 (store_ptr MSVC_Win64 image 8200 20736) Target_f1
  = GetAddress MSVC_Win64 image Target_f1.
Proof.
  apply GetAddress_reads_five_bytes.
  intros _ x Hx. simpl in Hx.
  apply load8_store_le_outside. simpl. lia.
Defined.

(** X3 on the image: with a null table nothing resolves. *)
Lemma GetVirtualAddress_is_default_or_live_slot_witness :
  GetVirtualAddress (P := msvc64) image 0 2 Target_f1
  = Member_default (P := msvc64).
Proof.
  apply (GetVirtualAddress_is_default_or_live_slot (P := msvc64)
           image 0 2 Target_f1).
  left. reflexivity.
Defined.

(** X4 on the image. *)
Lemma Initialize_captures_the_table_witness :
  target_size ready = 2
  /\ (forall i, i < target_size ready ->
        snapshot_at ready i = target_slot ready i
        /\ target_slot ready i <> 0)
  /\ vtable_at MSVC_Win64 (memory ready) (substitute_vtable ready)
       (substitute_size ready) = 0.
Proof.
  destruct (Initialize_captures_the_table 8 fresh ready target_instance
              substitute_instance)
    as (_ & _ & _ & _ & _ & Hslots & _ & _ & Hend).
  - reflexivity.
  - reflexivity.
  - vm_compute. reflexivity.
  - split; [vm_compute; reflexivity|]. split; [exact Hslots | exact Hend].
Defined.

(** X7 on the image: a hook, an unhook and the destructor. *)
Lemma protection_is_lifted_in_brackets_witness :
  bracketed (protections ready)
  /\ bracketed
       (protections
          (ClassProxy_destructor
             (run ready [OpHook (Method Target_f1) Substitute_f1;
                         OpUnHook (Method Target_f1)]))).
Proof.
  assert (H : bracketed (protections ready)) by (vm_compute; exact I).
  split; [exact H|].
  exact (proj2 (protection_is_lifted_in_brackets ready
                  [OpHook (Method Target_f1) Substitute_f1;
                   OpUnHook (Method Target_f1)] H)).
Defined.

(** X8 on the image: [&Substitute::g] is no slot of the substitute's
    table. *)
Lemma failed_Hook_lifts_no_protection_witness :
  protections (snd (Hook ready (Method Target_f1) Substitute_g))
  = protections ready
  /\ memory (snd (Hook ready (Method Target_f1) Substitute_g))
     = memory ready.
Proof.
  destruct (failed_Hook_lifts_no_protection ready (Method Target_f1)
              Substitute_g) as [Hprot Hslot].
  - vm_compute. reflexivity.
  - split; [exact Hprot|]. apply Hslot. vm_compute. reflexivity.
Defined.

(** X9 on the image: [Hook] through one copy of [&Target::f1], then
    [IsHooked] through a copy held elsewhere. *)
Lemma Hook_then_IsHooked_witness :
  fst (IsHooked hooked
         (Method {| ref_ptr := 24576; ref_adj := 0;
                    ref_home := 2147418112 |})) = true.
Proof.
  apply (Hook_then_IsHooked ready Target_f1
           {| ref_ptr := 24576; ref_adj := 0; ref_home := 2147418112 |}
           Substitute_f1).
  - vm_compute. reflexivity.
  - vm_compute. reflexivity.
  - vm_compute. reflexivity.
  - vm_compute. reflexivity.
  - intros H. vm_compute in H. discriminate.
Defined.

(** X10 on the image: with slot 1 hooked, [Call] goes through 0x4100. *)
Lemma Call_after_Hook_invokes_the_original_witness :
  callee_of (fst (Call hooked target_instance (Method Target_f1) [5]))
  = Some (target_slot ready (index (resolve_target ready (Method Target_f1)))).
Proof.
  apply (Call_after_Hook_invokes_the_original ready Target_f1 Target_f1 Substitute_f1).
  - vm_compute. reflexivity.
  - vm_compute. reflexivity.
  - vm_compute. reflexivity.
  - vm_compute. reflexivity.
  - vm_compute. discriminate.
Defined.

(** X11 on the image. *)
Lemma Hook_then_UnHook_restores_memory_witness :
  fst (UnHook hooked (Method Target_f1)) = true
  /\ forall x,
       load8 (memory (snd (UnHook hooked (Method Target_f1)))) x
       = load8 (memory ready) x.
Proof.
  destruct (Hook_then_UnHook_restores_memory ready Target_f1 Target_f1 Substitute_f1)
    as (Hok & Hbytes & _).
  - vm_compute. reflexivity.
  - vm_compute. reflexivity.
  - vm_compute. reflexivity.
  - vm_compute. reflexivity.
  - vm_compute. reflexivity.
  - intros H. vm_compute in H. discriminate.
  - split; [exact Hok | exact Hbytes].
Defined.

(** X12 on the image: hooking slot 1 leaves slot 0. *)
Lemma other_slots_keep_their_value_witness :
  target_slot hooked 0 = target_slot ready 0.
Proof.
  destruct (other_slots_keep_their_value ready Target_f1 Substitute_f1 0)
    as [Hhook _].
  - intros H. vm_compute in H. discriminate.
  - vm_compute. reflexivity.
  - apply Hhook. vm_compute. reflexivity.
Defined.

(** X13 on the image: the plain function at 0x7000. *)
Lemma function_hook_round_trip_witness :
  hooks (snd (UnHook (snd (Hook fresh (Function 28672) Substitute_g))
                     (Function 28672)))
  = hooks fresh.
Proof.
  destruct (function_hook_round_trip fresh 28672 Substitute_g)
    as (_ & _ & _ & _ & Hback & _).
  - vm_compute. reflexivity.
  - exact Hback.
Defined.

(** X14 on the image: the destructor undoes the hook of slot 1. *)
Lemma destructor_restores_the_table_witness :
  target_slot (ClassProxy_destructor hooked) 1 = snapshot_at hooked 1
  /\ ClassProxy_destructor fresh = fresh.
Proof.
  assert (Hsnapshot : original_vtable hooked = [16384; 16640])
    by (vm_compute; reflexivity).
  destruct (destructor_restores_the_table hooked) as [_ Hready].
  destruct (destructor_restores_the_table fresh) as [Hfresh _].
  split.
  - destruct Hready as [Hslots _].
    + intros H. vm_compute in H. discriminate.
    + intros H. vm_compute in H. discriminate.
    + apply snapshot_pointers_Forall. rewrite Hsnapshot.
      constructor; [vm_compute; reflexivity|].
      constructor; [vm_compute; reflexivity|]. constructor.
    + apply Hslots. rewrite Hsnapshot. vm_compute. reflexivity.
  - apply Hfresh. left. reflexivity.
Defined.

(** X15 on the image. *)
Lemma registry_invariant_witness : registry_ok hooked.
Proof.
  destruct (registry_invariant (P := msvc64) image) as (Hinitial & Hrun & Hinit & _).
  apply (Hrun ready [OpHook (Method Target_f1) Substitute_f1]).
  apply (Hinit 8%nat fresh ready target_instance substitute_instance true).
  - exact Hinitial.
  - vm_compute. reflexivity.
Defined.

(** X16 on the image: the thunk of [&Target::f1] jumps through
    [rax+8]. *)
Lemma MSVC_x64_thunk_resolves_by_displacement_witness :
  GetVirtualAddress (P := msvc64) image 8192 2 Target_f1
  = Member_at 1 16640.
Proof.
  apply (MSVC_x64_thunk_resolves_by_displacement (P := msvc64)
           image 8192 2 Target_f1).
  - reflexivity.
  - discriminate.
  - discriminate.
  - vm_compute. reflexivity.
  - vm_compute. reflexivity.
  - vm_compute. reflexivity.
  - vm_compute. reflexivity.
Defined.

(** X17: the pointer value 9 is slot 1 of a table of 8-byte slots. *)
Lemma offset_encoded_member_resolves_to_its_slot_witness :
  GetVirtualAddress (P := gcc64) image 8192 2
    {| ref_ptr := 9; ref_adj := 0; ref_home := 2147418112 |}
  = Member_at 1 16640.
Proof.
  apply (offset_encoded_member_resolves_to_its_slot (P := gcc64)
           image 8192 2 1
           {| ref_ptr := 9; ref_adj := 0; ref_home := 2147418112 |}).
  - reflexivity.
  - discriminate.
  - reflexivity.
  - reflexivity.
Defined.


(** X19 on the image: with slot 1 hooked and no trampoline registered,
    [Call] goes through the snapshot. *)
Lemma Call_precedence_witness :
  callee_of (fst (Call hooked target_instance (Method Target_f1) []))
  = Some (snapshot_at hooked (index (resolve_target hooked (Method Target_f1)))).
Proof.
  destruct (Call_precedence hooked target_instance (Method Target_f1) [])
    as (_ & Hsnapshot & _).
  - vm_compute. reflexivity.
  - vm_compute. discriminate.
  - apply Hsnapshot; vm_compute; reflexivity.
Defined.

End Examples2.
